(** * FamAnalysis, [utils.py]: the resumable, hash-checked batch downloader

    A shallow embedding of [print_if], [warn_if], [safe_get_request] and of the
    class [SafeDownloader] ([downloader], [download_file], [validate_file],
    [download], [validate]).  Python code that talks to the network, the file
    system and the console is written in a small state-and-exception monad
    over an explicit [world]. *)

From stdpp Require Import base gmap strings list numbers pretty.
From Equations Require Import Equations.
From Stdlib Require Import Strings.Ascii Strings.Byte.

Local Open Scope Z_scope.

Abbreviation bytes := (list byte).

(** ** Python exceptions and results *)

(** The exception classes the modelled code can meet.  [ConnectionError]
    stands for [requests.exceptions.ConnectionError] and its subclasses,
    [RequestException] for every other exception of [requests] (read timeouts,
    invalid URLs, broken chunked streams, ...). *)
Inductive exn : Type :=
| ConnectionError (msg : string)
| RequestException (msg : string)
| IndexError
| TypeError
| ValueError
| AssertionError
| FileNotFoundError.

(** [f"{e}"] *)
Definition exn_str (e : exn) : string :=
  match e with
  | ConnectionError msg | RequestException msg => msg
  | IndexError => "list index out of range"
  | TypeError => "'NoneType' object is not subscriptable"
  | ValueError => "invalid literal for int() with base 10"
  | AssertionError => ""
  | FileNotFoundError => "[Errno 2] No such file or directory"
  end.

Definition is_ConnectionError (e : exn) : bool :=
  match e with ConnectionError _ => true | _ => false end.
Definition is_IndexError (e : exn) : bool :=
  match e with IndexError => true | _ => false end.
Definition is_AssertionError (e : exn) : bool :=
  match e with AssertionError => true | _ => false end.

Inductive result (A : Type) : Type :=
| Ok (a : A)
| Raise (e : exn).
Arguments Ok {A} a.
Arguments Raise {A} e.

(** ** The world: files, servers, and what was observed *)

Inductive open_mode : Type := Rb | Wb | Ab.

(** A response of [requests]: its headers, and what
    [iter_content(chunk_size)] yields: the chunks, in order, and the exception
    that ends the stream when the transport breaks before the end. *)
Record Response : Type := mkResponse {
  resp_headers : gmap string string;
  iter_content : Z → list bytes * option exn
}.

(** What the servers answer to [requests.head(url)] and to
    [requests.get(url, stream=True, headers=h)]; the answers are taken not to
    change while the program runs. *)
Record Network : Type := mkNetwork {
  net_head : string → result Response;
  net_get : string → option (gmap string string) → result Response
}.

(** What the program does to the outside: the two kinds of request, a file
    opened, a display of the progress bar, a line of [print], a warning handed
    to [warnings.warn]. *)
Inductive event : Type :=
| EHead (url : string)
| EGet (url : string) (headers : option (gmap string string))
| EOpen (path : string) (mode : open_mode)
| EPbar (n total : Z)
| EPrint (text : string)
| EWarn (text : string).

(** [fs] maps the path of every regular file to its content; the output
    directory is taken to exist and the paths met to name regular files.
    [log] is the sequence of events, oldest first. *)
Record world : Type := mkWorld {
  fs : gmap string bytes;
  net : Network;
  log : list event
}.

Definition set_fs (w : world) (f : gmap string bytes) : world :=
  mkWorld f (net w) (log w).
Definition add_log (w : world) (e : event) : world :=
  mkWorld (fs w) (net w) (log w ++ [e]).

(** ** The monad of Python statements *)

Definition M (A : Type) : Type := world → result A * world.

Definition ret {A} (a : A) : M A := λ w, (Ok a, w).
Definition raise {A} (e : exn) : M A := λ w, (Raise e, w).
Definition bind {A B} (m : M A) (k : A → M B) : M B :=
  λ w, match m w with
       | (Ok a, w') => k a w'
       | (Raise e, w') => (Raise e, w')
       end.

Notation "x <- m ;; k" := (bind m (λ x, k))
  (at level 62, m at next level, right associativity,
   format "'[v' x  <-  m  ;;  '/' k ']'").
Notation "m ;;; k" := (bind m (λ _, k))
  (at level 62, right associativity, format "'[v' m  ;;;  '/' k ']'").

(** [try: body  except E as e: handler e  else: orelse] for the exception
    classes selected by [catches]. *)
Definition try_except_else {A B} (body : M A) (catches : exn → bool)
    (handler : exn → M B) (orelse : A → M B) : M B :=
  λ w, match body w with
       | (Ok a, w') => orelse a w'
       | (Raise e, w') => if catches e then handler e w' else (Raise e, w')
       end.

Definition emit (e : event) : M unit := λ w, (Ok tt, add_log w e).
Definition lift_result {A} (r : result A) : M A := λ w, (r, w).

(** [for x in l: body x] *)
Fixpoint for_each {A} (l : list A) (body : A → M unit) : M unit :=
  match l with
  | [] => ret tt
  | x :: l' => body x ;;; for_each l' body
  end.

(** ** Python values *)

(** [l[i]] on a list, with Python's negative indices. *)
Definition py_index {A} (l : list A) (i : Z) : option A :=
  if decide (0 ≤ i) then l !! Z.to_nat i
  else if decide (- Z.of_nat (length l) ≤ i)
       then l !! Z.to_nat (Z.of_nat (length l) + i)
       else None.

Definition getitem {A} (l : list A) (i : Z) : M A :=
  match py_index l i with
  | Some x => ret x
  | None => raise IndexError
  end.

(** [range(n)] *)
Definition py_range (n : nat) : list Z := Z.of_nat <$> seq 0 n.

(** Truth value of an [Optional[int]]: [None] and [0] are false. *)
Definition truthy (x : option Z) : bool :=
  match x with
  | None => false
  | Some n => negb (n =? 0)
  end.

(** [f"{x}"] for an [Optional[int]] *)
Definition fmt_opt_int (x : option Z) : string :=
  match x with
  | None => "None"
  | Some n => pretty n
  end.

(** ** What [utils.py] takes from elsewhere *)

(** The module [definitions] (star-imported, not part of the sources at
    hand): the verbosity levels [VERBOSE[...]] and the message templates, each
    template with one [{}] placeholder, so that [T.format(x)] is [T x]. *)
Class Definitions : Type := {
  VERBOSE_program_warning : Z;
  VERBOSE_program_progress : Z;
  VERBOSE_thread_warnings : Z;
  VERBOSE_raw_warnings : Z;
  DOWNLOAD_INCOMPLETE_WRN : string → string;
  DOWNLOAD_COMPLETE_MSG : string → string;
  DOWNLOAD_START_MSG : string → string;
  DOWNLOAD_NO_HASH_ERR : string → string;
  DOWNLOAD_CORRUPTION_ERR : string → string;
  DOWNLOAD_VALIDATION_MSG : string → string
}.

(** Library functions: [int] on a string ([None] when it raises
    [ValueError]), and [pathlib]'s [/] and [.name] (paths shown as
    strings). *)
Class Library : Type := {
  int_of_str : string → option Z;
  path_join : string → string → string;
  path_name : string → string
}.

(** ** [print_if], [warn_if] *)

Definition print_if (verbose thr : Z) (text : string) : M unit :=
  if verbose >=? thr then emit (EPrint text) else ret tt.

Definition warn_if (verbose thr : Z) (text : string) : M unit :=
  if verbose >=? thr then emit (EWarn text) else ret tt.

(** ** [safe_get_request] *)

(** A [requests] session: [session.get(url, timeout=timeout)] is any
    statement, it may raise and it may have effects of its own. *)
Record Session (T R : Type) : Type := mkSession {
  session_get : string → T → M R
}.
Arguments mkSession {T R} session_get.
Arguments session_get {T R} s url timeout.

Definition safe_get_request {T R} (session : Session T R) (url : string)
    (timeout : T) (verbose_level : Z) (warning_msg : string)
    (return_on_failure : R) (warning_thr raw_err_thr : Z) : M R :=
  try_except_else (session_get session url timeout) is_ConnectionError
    (λ e, warn_if verbose_level warning_thr warning_msg ;;;
          warn_if verbose_level raw_err_thr (exn_str e) ;;;
          ret return_on_failure)
    (λ r, ret r).

(** [safe_get_request] with the defaults of its signature:
    [warning_msg='connection failed'], [return_on_failure=None] and the two
    thresholds of [VERBOSE]. *)
Definition safe_get_request_default `{Definitions} {T R}
    (session : Session T (option R)) (url : string) (timeout : T)
    (verbose_level : Z) : M (option R) :=
  safe_get_request session url timeout verbose_level "connection failed" None
    VERBOSE_thread_warnings VERBOSE_raw_warnings.

(** ** The operations of [requests], [pathlib] and [open] on the world *)

Definition requests_head (url : string) : M Response :=
  emit (EHead url) ;;; λ w, (net_head (net w) url, w).

Definition requests_get (url : string) (headers : option (gmap string string))
    : M Response :=
  emit (EGet url headers) ;;; λ w, (net_get (net w) url headers, w).

(** [int(r.headers.get('content-length', 0))] *)
Definition content_length_of `{Library} (r : Response) : result Z :=
  match resp_headers r !! "content-length" with
  | None => Ok 0
  | Some s => match int_of_str s with
              | Some n => Ok n
              | None => Raise ValueError
              end
  end.

Definition content_length `{Library} (r : Response) : M Z :=
  lift_result (content_length_of r).

(** [file.exists()] *)
Definition path_exists (file : string) : M bool :=
  λ w, (Ok (bool_decide (is_Some (fs w !! file))), w).

(** [file.stat().st_size] *)
Definition st_size (file : string) : M Z :=
  λ w, match fs w !! file with
       | Some content => (Ok (Z.of_nat (length content)), w)
       | None => (Raise FileNotFoundError, w)
       end.

(** [open(file, mode)] for writing: ['wb'] empties or creates the file,
    ['ab'] creates it when it is missing; the handle is the path.  (With
    ['rb'] nothing is created.) *)
Definition open_write (file : string) (mode : open_mode) : M string :=
  emit (EOpen file mode) ;;;
  λ w, match mode, fs w !! file with
       | Wb, _ | Ab, None => (Ok file, set_fs w (<[file := []]> (fs w)))
       | Ab, Some _ | Rb, Some _ => (Ok file, w)
       | Rb, None => (Raise FileNotFoundError, w)
       end.

(** [f.write(chunk)] on a handle of [open_write]: the bytes go to the end. *)
Definition f_write (f : string) (chunk : bytes) : M unit :=
  λ w, (Ok tt, set_fs w (alter (λ content, content ++ chunk) f (fs w))).

(** [open(file, 'rb')]: the handle is what is left to read. *)
Definition open_rb (file : string) : M bytes :=
  emit (EOpen file Rb) ;;;
  λ w, match fs w !! file with
       | Some content => (Ok content, w)
       | None => (Raise FileNotFoundError, w)
       end.

(** ** [hashlib.sha256] *)

(** SHA-256 after FIPS 180-4, on 32-bit words held in [Z]. *)
Module SHA256.

Definition mask32 (x : Z) : Z := Z.land x 0xffffffff.
Definition rotr (n x : Z) : Z :=
  Z.lor (Z.shiftr x n) (mask32 (Z.shiftl x (32 - n))).
Definition Ch (x y z : Z) : Z := Z.lxor (Z.land x y) (Z.land (Z.lnot x) z).
Definition Maj (x y z : Z) : Z :=
  Z.lxor (Z.lxor (Z.land x y) (Z.land x z)) (Z.land y z).
Definition Sigma0 (x : Z) : Z :=
  Z.lxor (Z.lxor (rotr 2 x) (rotr 13 x)) (rotr 22 x).
Definition Sigma1 (x : Z) : Z :=
  Z.lxor (Z.lxor (rotr 6 x) (rotr 11 x)) (rotr 25 x).
Definition sigma0 (x : Z) : Z :=
  Z.lxor (Z.lxor (rotr 7 x) (rotr 18 x)) (Z.shiftr x 3).
Definition sigma1 (x : Z) : Z :=
  Z.lxor (Z.lxor (rotr 17 x) (rotr 19 x)) (Z.shiftr x 10).

(** The constants are read off the primes: the first 32 bits of the
    fractional parts of the cube roots of the first 64 primes for [K], of the
    square roots of the first 8 for [H0]. *)
Definition is_prime (n : Z) : bool :=
  forallb (λ d, negb (n `mod` d =? 0)) (Z.of_nat <$> seq 2 (Z.to_nat n - 2)).

Definition primes : list Z :=
  List.filter is_prime (Z.of_nat <$> seq 2 310).

(** The largest [r] in [lo, hi) with [r ^ 3 <= n], by bisection. *)
Fixpoint cube_root (fuel : nat) (lo hi n : Z) : Z :=
  match fuel with
  | O => lo
  | S fuel' =>
      let mid := (lo + hi) `div` 2 in
      if mid * mid * mid <=? n then cube_root fuel' mid hi n
      else cube_root fuel' lo mid n
  end.

Definition frac_cbrt (p : Z) : Z :=
  mask32 (cube_root 36 0 (2 ^ 35) (p * 2 ^ 96)).
Definition frac_sqrt (p : Z) : Z := mask32 (Z.sqrt (p * 2 ^ 64)).

Definition K : list Z := Eval vm_compute in frac_cbrt <$> primes.

Record chain : Type := mkChain {
  ha : Z; hb : Z; hc : Z; hd : Z; he : Z; hf : Z; hg : Z; hh : Z
}.

Definition H0 : chain :=
  Eval vm_compute in
    mkChain (frac_sqrt 2) (frac_sqrt 3) (frac_sqrt 5) (frac_sqrt 7)
      (frac_sqrt 11) (frac_sqrt 13) (frac_sqrt 17) (frac_sqrt 19).

Definition byte_val (b : byte) : Z := Z.of_N (Byte.to_N b).
Definition byte_of (z : Z) : byte :=
  default x00 (Byte.of_N (Z.to_N (Z.land z 0xff))).

(** The big-endian words of a block. *)
Fixpoint words (block : bytes) : list Z :=
  match block with
  | b0 :: b1 :: b2 :: b3 :: rest =>
      (Z.shiftl (byte_val b0) 24 + Z.shiftl (byte_val b1) 16 +
       Z.shiftl (byte_val b2) 8 + byte_val b3) :: words rest
  | _ => []
  end.

(** [n] more words of the message schedule; [ws] has the latest word
    first. *)
Fixpoint extend (n : nat) (ws : list Z) : list Z :=
  match n with
  | O => ws
  | S n' =>
      let back i := default 0 (ws !! i) in
      extend n'
        (mask32 (sigma1 (back 1%nat) + back 6%nat +
                 sigma0 (back 14%nat) + back 15%nat) :: ws)
  end.

Definition schedule (block : bytes) : list Z :=
  reverse (extend 48 (reverse (words block))).

Definition round (s : chain) (kw : Z) : chain :=
  let t1 := hh s + Sigma1 (he s) + Ch (he s) (hf s) (hg s) + kw in
  let t2 := Sigma0 (ha s) + Maj (ha s) (hb s) (hc s) in
  mkChain (mask32 (t1 + t2)) (ha s) (hb s) (hc s)
          (mask32 (hd s + t1)) (he s) (hf s) (hg s).

Definition compress (h : chain) (block : bytes) : chain :=
  let s := foldl round h (zip_with Z.add K (schedule block)) in
  mkChain (mask32 (ha h + ha s)) (mask32 (hb h + hb s))
          (mask32 (hc h + hc s)) (mask32 (hd h + hd s))
          (mask32 (he h + he s)) (mask32 (hf h + hf s))
          (mask32 (hg h + hg s)) (mask32 (hh h + hh s)).

(** Bytes are fed one at a time into the block being filled; a block of 64
    is compressed at once. *)

Fixpoint absorb (h : chain) (buf : bytes) (data : bytes) : chain * bytes :=
  match data with
  | [] => (h, buf)
  | b :: data' =>
      let buf' := buf ++ [b] in
      if (length buf' =? 64)%nat then absorb (compress h buf') [] data'
      else absorb h buf' data'
  end.

(** The padding of a message of [count] bytes: [0x80], zeros up to 56 modulo
    64, and the length in bits on 8 bytes. *)
Definition padding (count : Z) : bytes :=
  x80 :: replicate (Z.to_nat ((55 - count) `mod` 64)) x00 ++
  ((λ i, byte_of (Z.shiftr (8 * count) (8 * (7 - Z.of_nat i)))) <$> seq 0 8).

Definition hex_digit (n : Z) : ascii :=
  ascii_of_N (Z.to_N (if n <? 10 then 48 + n else 87 + n)).

Definition hex32 (x : Z) : list ascii :=
  (λ i, hex_digit (Z.land (Z.shiftr x (4 * (7 - Z.of_nat i))) 0xf)) <$> seq 0 8.

Definition hex_chain (h : chain) : string :=
  String.string_of_list_ascii
    (concat (hex32 <$> [ha h; hb h; hc h; hd h; he h; hf h; hg h; hh h])).

End SHA256.

(** A hash object as [hashlib] keeps it: the chaining value, the bytes of the
    block that is not full yet, and the number of bytes taken so far.
    [update] feeds the bytes in, compressing each block as it fills;
    [hexdigest] pads a copy and prints the eight words in lowercase
    hexadecimal. *)
Record sha256_obj : Type := mkSha {
  chaining : SHA256.chain;
  buffer : bytes;
  count : Z
}.

Definition sha256_new : sha256_obj := mkSha SHA256.H0 [] 0.

Definition sha_update (sha : sha256_obj) (chunk : bytes) : sha256_obj :=
  let '(h, buf) := SHA256.absorb (chaining sha) (buffer sha) chunk in
  mkSha h buf (count sha + Z.of_nat (length chunk)).

Definition hexdigest (sha : sha256_obj) : string :=
  SHA256.hex_chain
    (SHA256.absorb (chaining sha) (buffer sha) (SHA256.padding (count sha))).1.

Arguments sha_update : simpl never.
Arguments hexdigest : simpl never.

(** The size of one read in [validate_file]: [1000 * 1000]. *)
Definition READ_SIZE : nat := Z.to_nat (1000 * 1000).

(** A value together with the proof that it is the one inspected. *)
Definition inspect {A} (a : A) : {b : A | a = b} := exist _ a eq_refl.

(** [while True: chunk = f.read(size); if not chunk: break; sha.update(chunk)]
    on a handle with [f] left to read: [f.read(size)] is [take size f] and
    leaves [drop size f]. *)
Equations? read_loop (size : nat) (f : bytes) (sha : sha256_obj) : sha256_obj
  by wf (length f) lt :=
  read_loop size f sha with inspect (take size f) := {
    | exist _ [] _ => sha
    | exist _ (b :: chunk) Hread =>
        read_loop size (drop size f) (sha_update sha (b :: chunk)) }.
Proof.
  destruct size as [|n]; [by rewrite take_0 in Hread|].
  destruct f as [|b' f]; [done|].
  rewrite length_drop. simpl. lia.
Qed.

(** ** [class SafeDownloader] *)

(** The attributes set by [__init__] ([_context_setting], which no method
    reads, is left out); [url_hashes] is [None] by default. *)
Record SafeDownloader : Type := mkSafeDownloader {
  base : string;
  urls : list string;
  url_hashes : option (list string);
  file_names : list string;
  outfile : string;
  block_size : Z;
  _v : Z
}.

Section SafeDownloader.
Context `{Definitions} `{Library}.
Variable self : SafeDownloader.

(** The progress bar of [tqdm]: each display is an event. *)
Definition pbar_update (n total : Z) (k : Z) : M Z :=
  emit (EPbar (n + k) total) ;;; ret (n + k).

(** [for chunk in chunks: f.write(chunk); pbar.update(len(chunk))] *)
Fixpoint write_chunks (f : string) (chunks : list bytes) (n total : Z) : M Z :=
  match chunks with
  | [] => ret n
  | chunk :: rest =>
      f_write f chunk ;;;
      n' <- pbar_update n total (Z.of_nat (length chunk)) ;;
      write_chunks f rest n' total
  end.

Definition resume_header (resume_byte_pos : option Z)
    : option (gmap string string) :=
  if truthy resume_byte_pos
  then Some {[ "Range" := "bytes=" +:+ fmt_opt_int resume_byte_pos +:+ "-" ]}
  else None.

Definition initial_pos (resume_byte_pos : option Z) : Z :=
  if truthy resume_byte_pos then default 0 resume_byte_pos else 0.

Definition mode_of (resume_byte_pos : option Z) : open_mode :=
  if truthy resume_byte_pos then Ab else Wb.

Definition downloader (position : Z) (resume_byte_pos : option Z) : M unit :=
  url <- getitem (urls self) position ;;
  r <- requests_head url ;;
  file_size <- content_length r ;;
  r <- requests_get url (resume_header resume_byte_pos) ;;
  name <- getitem (file_names self) position ;;
  let file := path_join (outfile self) name in
  f <- open_write file (mode_of resume_byte_pos) ;;
  emit (EPbar (initial_pos resume_byte_pos) file_size) ;;;
  let '(chunks, broken) := iter_content r (32 * block_size self) in
  write_chunks f chunks (initial_pos resume_byte_pos) file_size ;;;
  match broken with
  | Some e => raise e
  | None => ret tt
  end.

Definition download_file (position : Z) : M unit :=
  url <- getitem (urls self) position ;;
  r <- requests_head url ;;
  file_size_online <- content_length r ;;
  name <- getitem (file_names self) position ;;
  let file := path_join (outfile self) name in
  file_exists <- path_exists file ;;
  if (file_exists : bool) then
    file_size_offline <- st_size file ;;
    if negb (file_size_online =? file_size_offline) then
      print_if (_v self) VERBOSE_program_warning (DOWNLOAD_INCOMPLETE_WRN file) ;;;
      downloader position (Some file_size_offline)
    else
      print_if (_v self) VERBOSE_program_progress (DOWNLOAD_COMPLETE_MSG file)
  else
    print_if (_v self) VERBOSE_program_progress (DOWNLOAD_START_MSG file) ;;;
    downloader position None.

(** [self.url_hashes[position]]: subscripting [None] is a [TypeError]. *)
Definition hash_at (position : Z) : M string :=
  match url_hashes self with
  | None => raise TypeError
  | Some hashes => getitem hashes position
  end.

(** [assert b], as Python runs it without [-O]. *)
Definition py_assert (b : bool) : M unit :=
  if b then ret tt else raise AssertionError.

(** The value returned is Python's: [Some 0] for [return 0], [None] when the
    function falls off its end. *)
Definition validate_file (position : Z) : M (option Z) :=
  name <- getitem (file_names self) position ;;
  let file := path_join (outfile self) name in
  try_except_else (hash_at position) is_IndexError
    (λ _, print_if (_v self) VERBOSE_program_warning
            (DOWNLOAD_NO_HASH_ERR (path_name file)) ;;;
          ret (Some 0))
    (λ hash,
       let sha := sha256_new in
       f <- open_rb file ;;
       let sha := read_loop READ_SIZE f sha in
       try_except_else (py_assert (String.eqb (hexdigest sha) hash))
         is_AssertionError
         (λ _, file <- getitem (file_names self) position ;;
               print_if (_v self) VERBOSE_program_warning
                 (DOWNLOAD_CORRUPTION_ERR file))
         (λ _, print_if (_v self) VERBOSE_program_progress
                 (DOWNLOAD_VALIDATION_MSG file)) ;;;
       ret None).

Definition download : M unit :=
  for_each (py_range (length (urls self))) download_file.

Definition validate : M unit :=
  for_each (py_range (length (urls self)))
    (λ position, validate_file position ;;; ret tt).

End SafeDownloader.

(** ** [safe_post_request] *)

(** [session.post(url, timeout=timeout)], as [session_get] above. *)
Record PostSession (T R : Type) : Type := mkPostSession {
  session_post : string → T → M R
}.
Arguments mkPostSession {T R} session_post.
Arguments session_post {T R} _ url timeout.

Definition safe_post_request {T R} (session : PostSession T R) (url : string)
    (timeout : T) (verbose_level : Z) (warning_msg : string)
    (return_on_failure : R) (warning_thr raw_err_thr : Z) : M R :=
  try_except_else (session_post session url timeout) is_ConnectionError
    (λ e, warn_if verbose_level warning_thr warning_msg ;;;
          warn_if verbose_level raw_err_thr (exn_str e) ;;;
          ret return_on_failure)
    (λ r, ret r).

(** ** [name_for_esm], [sequence_from_esm_df] *)

(** [sub in s] on strings. *)
Fixpoint str_contains (sub s : string) : bool :=
  String.prefix sub s ||
  match s with
  | EmptyString => false
  | String _ s' => str_contains sub s'
  end.

(** [s[:-k]]: all but the last [k] characters, nothing when there are
    fewer. *)
Definition str_drop_last (k : nat) (s : string) : string :=
  String.substring 0 (String.length s - k) s.

Definition name_for_esm (name : string) : string :=
  if str_contains "_HUMAN" name then str_drop_last 6 name else name.

(** [desc[0]] on a string. *)
Definition first_char (desc : string) : result ascii :=
  match desc with
  | EmptyString => Raise IndexError
  | String c _ => Ok c
  end.

(** [[f(x) for x in l]], stopping at the first exception. *)
Fixpoint comprehension {A B} (f : A → result B) (l : list A)
    : result (list B) :=
  match l with
  | [] => Ok []
  | x :: l' =>
      match f x with
      | Raise e => Raise e
      | Ok y => match comprehension f l' with
                | Raise e => Raise e
                | Ok ys => Ok (y :: ys)
                end
      end
  end.

(** [columns] is [esm_data.columns.to_list()], a list of strings. *)
Definition sequence_from_esm_df (columns : list string) : result string :=
  match comprehension first_char (drop 1 columns) with
  | Raise e => Raise e
  | Ok chars => Ok (String.string_of_list_ascii chars)
  end.

(** ** [ugzip] *)

(** What [gzip] makes of the bytes of a well-formed [.gz] file; the files
    read are taken to be well-formed, and an empty file reads as empty. *)
Class Gzip : Type := {
  gunzip : bytes → bytes
}.

(** [gzip.open(path, 'rb')]: the file is opened at once, and read later. *)
Definition gzip_open (path : string) : M string :=
  emit (EOpen path Rb) ;;;
  λ w, match fs w !! path with
       | Some _ => (Ok path, w)
       | None => (Raise FileNotFoundError, w)
       end.

(** What the reader will deliver, settled when it is first read. *)
Definition gzip_stream `{Gzip} (f_in : string) : M bytes :=
  λ w, (Ok match fs w !! f_in with
           | Some (b :: raw) => gunzip (b :: raw)
           | _ => []
           end, w).

(** [f_in.read(n)] with [rest] left: all of it for [-1], a [ValueError] below
    that, and at most [n] bytes otherwise. *)
Definition gz_read (n : Z) (rest : bytes) : result (bytes * bytes) :=
  if n <? -1 then Raise ValueError
  else if n =? -1 then Ok (rest, [])
  else Ok (take (Z.to_nat n) rest, drop (Z.to_nat n) rest).

(** [chunk = f_in.read(n)
     while chunk: f_out.write(chunk); chunk = f_in.read(n)] *)
Equations? ugzip_loop (n : Z) (rest : bytes) (f_out : string) (w : world)
  : result unit * world by wf (length rest) lt :=
  ugzip_loop n rest f_out w with inspect (gz_read n rest) := {
    | exist _ (Raise e) _ => raise e w
    | exist _ (Ok ([], _)) _ => ret tt w
    | exist _ (Ok (b :: chunk, rest')) Hread =>
        match f_write f_out (b :: chunk) w with
        | (Ok _, w') => ugzip_loop n rest' f_out w'
        | (Raise e, w') => (Raise e, w')
        end }.
Proof.
  unfold gz_read in Hread.
  destruct (n <? -1); [done|].
  destruct (n =? -1).
  - injection Hread as Hall Hnil. subst rest rest'. simpl. lia.
  - injection Hread as Htake Hdrop. subst rest'.
    destruct (Z.to_nat n) as [|k]; [by rewrite take_0 in Htake|].
    destruct rest as [|b' rest]; [done|].
    rewrite length_drop. simpl. lia.
Qed.

(** [chunksize] is the number after [chunksize = int(chunksize)]. *)
Definition ugzip `{Gzip} (path outfile : string) (chunksize : Z) : M unit :=
  f_in <- gzip_open path ;;
  f_out <- open_write outfile Wb ;;
  stream <- gzip_stream f_in ;;
  ugzip_loop chunksize stream f_out.

(** ** Vocabulary of the statements *)

(** The header of a request for the bytes from [L] on. *)
Definition range_from (L : Z) : option (gmap string string) :=
  Some {[ "Range" := "bytes=" +:+ pretty L +:+ "-" ]}.

(** The GET request for [url] with the headers [hdr] is answered, and the
    stream of the answer delivers [data]; it ends there when [broken] is
    [None], and breaks there with the exception in [broken] otherwise. *)
Definition delivers (self : SafeDownloader) (w : world) (url : string)
    (hdr : option (gmap string string)) (data : bytes) (broken : option exn)
    : Prop :=
  ∃ r chunks,
    net_get (net w) url hdr = Ok r ∧
    iter_content r (32 * block_size self) = (chunks, broken) ∧
    concat chunks = data.

(** What a reader of [gzip] delivers from a file that holds [raw]. *)
Definition unzipped `{Gzip} (raw : bytes) : bytes :=
  match raw with
  | [] => []
  | b :: raw' => gunzip (b :: raw')
  end.

(** A character of lowercase hexadecimal text: [0-9] or [a-f]. *)
Definition is_lower_hex (c : ascii) : bool :=
  let n := N_of_ascii c in
  ((48 <=? n)%N && (n <=? 57)%N) || ((97 <=? n)%N && (n <=? 102)%N).

Definition add_logs (w : world) (evs : list event) : world :=
  mkWorld (fs w) (net w) (log w ++ evs).

(** What [print_if] and [warn_if] put on the console. *)
Definition shown (verbose thr : Z) (text : string) : list event :=
  if verbose >=? thr then [EPrint text] else [].
Definition warned (verbose thr : Z) (text : string) : list event :=
  if verbose >=? thr then [EWarn text] else [].

(** The destination of a file name: [self.outfile / name]. *)
Definition file_of `{Library} (self : SafeDownloader) (name : string) : string :=
  path_join (outfile self) name.

(** The HEAD probe of [url] answers, and the size it advertises is [R]. *)
Definition probed `{Library} (w : world) (url : string) (R : Z) : Prop :=
  ∃ r, net_head (net w) url = Ok r ∧ content_length_of r = Ok R.

(** The displays of the progress bar while [chunks] are written. *)
Fixpoint pbar_events (n total : Z) (chunks : list bytes) : list event :=
  match chunks with
  | [] => []
  | chunk :: rest =>
      EPbar (n + Z.of_nat (length chunk)) total ::
      pbar_events (n + Z.of_nat (length chunk)) total rest
  end.

(** One content transfer, told as a whole: the GET request with the headers
    [hdr]; when it is answered, the destination opened in [mode] and the
    chunks of the answer written behind [before], the bytes the opened file
    holds; the exception of a stream that breaks is raised after its last
    chunk. *)
Definition transfer (self : SafeDownloader) (url file : string)
    (hdr : option (gmap string string)) (mode : open_mode) (start total : Z)
    (before : bytes) (w : world) : result unit * world :=
  match net_get (net w) url hdr with
  | Raise e => (Raise e, add_logs w [EGet url hdr])
  | Ok r =>
      let '(chunks, broken) := iter_content r (32 * block_size self) in
      (match broken with Some e => Raise e | None => Ok tt end,
       mkWorld (<[file := before ++ concat chunks]> (fs w)) (net w)
         (log w ++ [EGet url hdr; EOpen file mode; EPbar start total] ++
          pbar_events start total chunks))
  end.

(** The outcome tags of validation; each is carried by a console line. *)
Inductive ValidationResult : Type := Validated | HashMismatch | NoHashAvailable.

Definition signal `{Definitions} `{Library} (self : SafeDownloader)
    (name : string) (v : ValidationResult) : list event :=
  let file := path_join (outfile self) name in
  match v with
  | Validated =>
      shown (_v self) VERBOSE_program_progress (DOWNLOAD_VALIDATION_MSG file)
  | HashMismatch =>
      shown (_v self) VERBOSE_program_warning (DOWNLOAD_CORRUPTION_ERR name)
  | NoHashAvailable =>
      shown (_v self) VERBOSE_program_warning
        (DOWNLOAD_NO_HASH_ERR (path_name file))
  end.

(** [hashlib.sha256(content).hexdigest()], the digest in one shot. *)
Definition sha256_one_shot (content : bytes) : string :=
  hexdigest (sha_update sha256_new content).

(** An item that [download_file] takes for complete: it has a url and a file
    name, its destination exists, and the probe advertises the size the
    destination has. *)
Definition complete_item `{Library} (self : SafeDownloader) (w : world)
    (position : Z) : Prop :=
  ∃ url name content,
    py_index (urls self) position = Some url ∧
    py_index (file_names self) position = Some name ∧
    fs w !! file_of self name = Some content ∧
    probed w url (Z.of_nat (length content)).

(** What skipping the item at [position] leaves in the log: the probe, and
    the already-downloaded message when the verbosity lets it through. *)
Definition skip_events `{Definitions} `{Library} (self : SafeDownloader)
    (position : Z) : list event :=
  [EHead (default "" (py_index (urls self) position))] ++
  shown (_v self) VERBOSE_program_progress
    (DOWNLOAD_COMPLETE_MSG
       (file_of self (default "" (py_index (file_names self) position)))).

Definition probe_or_print (e : event) : Prop :=
  match e with
  | EHead _ | EPrint _ => True
  | _ => False
  end.

(** Three ways a later world can stand to an earlier one: every file is
    still there; every file still starts with the bytes it had; the files are
    the same. *)
Definition keeps_files (w w' : world) : Prop := dom (fs w) ⊆ dom (fs w').

Definition appends_only (w w' : world) : Prop :=
  ∀ path content, fs w !! path = Some content →
    ∃ extra, fs w' !! path = Some (content ++ extra).

Definition same_files (w w' : world) : Prop := fs w' = fs w.

(** A statement stands in the relation [rel] when, from every world, the
    world it ends in (returning or raising) is related to the one it began
    in. *)
Definition preserves {A} (rel : world → world → Prop) (m : M A) : Prop :=
  ∀ w, rel w (m w).2.

(** The loop of [download] cut after its first [k] positions. *)
Definition download_upto `{Definitions} `{Library} (self : SafeDownloader)
    (k : nat) : M unit :=
  for_each (py_range k) (download_file self).

(** ** Sample data

    A server with two resources, a directory with three files, and values for
    what [definitions] and the libraries provide, to run the code on. *)

Module Sample.

#[export] Instance definitions : Definitions := {|
  VERBOSE_program_warning := 1;
  VERBOSE_program_progress := 1;
  VERBOSE_thread_warnings := 2;
  VERBOSE_raw_warnings := 3;
  DOWNLOAD_INCOMPLETE_WRN := λ f, "File " +:+ f +:+ " is incomplete. Resume download.";
  DOWNLOAD_COMPLETE_MSG := λ f, "File " +:+ f +:+ " is complete. Skip download.";
  DOWNLOAD_START_MSG := λ f, "File " +:+ f +:+ " does not exist. Start download.";
  DOWNLOAD_NO_HASH_ERR := λ f, "File " +:+ f +:+ " has no hash.";
  DOWNLOAD_CORRUPTION_ERR := λ f, "File " +:+ f +:+ " is corrupt.";
  DOWNLOAD_VALIDATION_MSG := λ f, "File " +:+ f +:+ " is validated."
|}.

(** Decimal digits only; every other text is refused. *)
Fixpoint digits_value (s : string) (acc : Z) : option Z :=
  match s with
  | EmptyString => Some acc
  | String c s' =>
      let d := Z.of_N (Ascii.N_of_ascii c) - 48 in
      if decide (0 ≤ d ≤ 9) then digits_value s' (10 * acc + d) else None
  end.

Definition int_of_digits (s : string) : option Z :=
  match s with
  | EmptyString => None
  | _ => digits_value s 0
  end.

(** The text behind the last [/]. *)
Fixpoint last_component (p : string) : string :=
  match p with
  | EmptyString => EmptyString
  | String c p' =>
      if bool_decide (c = "/"%char) then last_component p'
      else if bool_decide (String.index 0 "/" p' = None)
           then String c p' else last_component p'
  end.

#[export] Instance library : Library := {|
  int_of_str := int_of_digits;
  path_join := λ dir name, dir +:+ "/" +:+ name;
  path_name := last_component
|}.

Definition body : bytes := [x61; x62; x63; x64; x65].

(** The SHA-256 of [body], and that of another message. *)
Definition body_digest : string :=
  "36bbe50ed96841d10443bcb670d6554f0a34b761be67ec9c4a8ad2c0c44ca42c".
Definition other_digest : string :=
  "ba7816bf8f01cfea414140de5dae2223b00361a396177a9cb410ff61f20015ad".

(** [iter_content(k)]: the body in pieces of [k] bytes. *)
Fixpoint pieces (fuel : nat) (k : nat) (l : bytes) : list bytes :=
  match fuel, l with
  | S fuel', _ :: _ => take k l :: pieces fuel' k (drop k l)
  | _, _ => []
  end.

Definition serve (content : bytes) : Response :=
  mkResponse {[ "content-length" := pretty (Z.of_nat (length content)) ]}
    (λ k, (pieces (length content) (Z.to_nat k) content, None)).

(** The server: [http://a] has five bytes and honours [Range: bytes=2-];
    [http://e] has five bytes too; any other host is unreachable. *)
Definition network : Network :=
  mkNetwork
    (λ url, if decide (url = "http://a" ∨ url = "http://e")
            then Ok (mkResponse {[ "content-length" := "5" ]} (λ _, ([], None)))
            else Raise (ConnectionError "unreachable"))
    (λ url h, if decide (url = "http://a" ∨ url = "http://e")
              then match h with
                   | None => Ok (serve body)
                   | Some hd =>
                       if decide (hd !! "Range" = Some "bytes=2-")
                       then Ok (serve (drop 2 body))
                       else Ok (serve body)
                   end
              else Raise (ConnectionError "unreachable")).

Definition files : gmap string bytes :=
  {[ "out/full" := body; "out/copy" := body;
     "out/part" := take 2 body; "out/empty" := [] ]}.

Definition w0 : world := mkWorld files network [].

(** A session whose every request fails to connect, and one that answers. *)
Definition dead_session : Session unit (option string) :=
  mkSession (λ _ _, raise (ConnectionError "unreachable")).
Definition live_session : Session unit (option string) :=
  mkSession (λ url _, ret (Some url)).

Definition dl (us names : list string) (hashes : option (list string))
    : SafeDownloader :=
  mkSafeDownloader "" us hashes names "out" 1 1.

End Sample.

(** More sample data: sessions for [post], a server whose plain answer
    breaks after two bytes, a directory with an archive. *)
Module SampleMore.

Definition timeout_session : Session unit (option string) :=
  mkSession (λ _ _, raise (RequestException "read timed out")).
Definition dead_post : PostSession unit (option string) :=
  mkPostSession (λ _ _, raise (ConnectionError "unreachable")).
Definition live_post : PostSession unit (option string) :=
  mkPostSession (λ url _, ret (Some url)).
Definition timeout_post : PostSession unit (option string) :=
  mkPostSession (λ _ _, raise (RequestException "read timed out")).

(** [http://f] advertises five bytes; its plain answer breaks after the
    first two, its answer to [Range: bytes=2-] is whole. *)
Definition flaky_network : Network :=
  mkNetwork
    (λ url, Ok (mkResponse {[ "content-length" := "5" ]} (λ _, ([], None))))
    (λ url h,
       match h with
       | None =>
           Ok (mkResponse ∅
                 (λ _, ([take 2 Sample.body],
                        Some (RequestException "connection broken"))))
       | Some _ => Ok (Sample.serve (drop 2 Sample.body))
       end).

Definition w_flaky : world := mkWorld ∅ flaky_network [].


(** A stand-in for decompression: the archive is two bytes of magic and the
    content as it is. *)
#[export] Instance stored : Gzip := {| gunzip := drop 2 |}.

Definition archive : bytes := [x1f; x8b] ++ Sample.body.

Definition w_gz : world :=
  mkWorld {[ "db/a.gz" := archive; "db/a" := [x00] ]} Sample.network [].

End SampleMore.

(** * Theorems *)

(** ** The monad *)

Lemma add_logs_nil w : add_logs w [] = w.
Proof. destruct w. unfold add_logs. simpl. by rewrite app_nil_r. Qed.

Lemma add_logs_app w a b : add_logs (add_logs w a) b = add_logs w (a ++ b).
Proof. unfold add_logs. simpl. by rewrite app_assoc. Qed.

Lemma print_if_run verbose thr text w :
  print_if verbose thr text w = (Ok tt, add_logs w (shown verbose thr text)).
Proof.
  unfold print_if, shown. destruct (verbose >=? thr); [done|].
  by rewrite add_logs_nil.
Qed.

Lemma warn_if_run verbose thr text w :
  warn_if verbose thr text w = (Ok tt, add_logs w (warned verbose thr text)).
Proof.
  unfold warn_if, warned. destruct (verbose >=? thr); [done|].
  by rewrite add_logs_nil.
Qed.

Lemma bind_run {A B} (m : M A) (k : A → M B) w a w' :
  m w = (Ok a, w') → (x <- m ;; k x) w = k a w'.
Proof. intros Hm. unfold bind. by rewrite Hm. Qed.

Lemma bind_raise {A B} (m : M A) (k : A → M B) w e w' :
  m w = (Raise e, w') → (x <- m ;; k x) w = (Raise e, w').
Proof. intros Hm. unfold bind. by rewrite Hm. Qed.

Lemma getitem_run {A} (l : list A) i x w :
  py_index l i = Some x → getitem l i w = (Ok x, w).
Proof. intros Hi. unfold getitem. by rewrite Hi. Qed.

(** ** [safe_get_request] *)

Section SafeGetRequestFacts.
Context {T R : Type}.
Variables (session : Session T R) (url : string) (timeout : T).
Variables (verbose_level : Z) (warning_msg : string) (return_on_failure : R).
Variables (warning_thr raw_err_thr : Z).

(** C9.  When [session.get] raises a [ConnectionError], [safe_get_request]
    does not raise: it returns [return_on_failure], and what it adds to the
    console is the warning message exactly when [verbose_level >= warning_thr]
    (then the text of the error exactly when [verbose_level >= raw_err_thr]).
    When [session.get] returns a response, that response is returned and
    nothing else happens. *)
Theorem safe_get_request_sentinel (w w1 : world) :
  (∀ msg, session_get session url timeout w = (Raise (ConnectionError msg), w1) →
     safe_get_request session url timeout verbose_level warning_msg
       return_on_failure warning_thr raw_err_thr w =
     (Ok return_on_failure,
      add_logs w1 (warned verbose_level warning_thr warning_msg ++
                   warned verbose_level raw_err_thr msg)))
  ∧ (∀ r, session_get session url timeout w = (Ok r, w1) →
     safe_get_request session url timeout verbose_level warning_msg
       return_on_failure warning_thr raw_err_thr w = (Ok r, w1)).
Proof.
  split.
  - intros msg Hget. unfold safe_get_request, try_except_else.
    rewrite Hget. simpl.
    erewrite bind_run by apply warn_if_run.
    erewrite bind_run by apply warn_if_run.
    by rewrite add_logs_app.
  - intros r Hget. unfold safe_get_request, try_except_else. by rewrite Hget.
Qed.

(** Any other exception of [session.get] passes through. *)
Lemma safe_get_request_other (w w1 : world) (e : exn) :
  is_ConnectionError e = false →
  session_get session url timeout w = (Raise e, w1) →
  safe_get_request session url timeout verbose_level warning_msg
    return_on_failure warning_thr raw_err_thr w = (Raise e, w1).
Proof.
  intros He Hget. unfold safe_get_request, try_except_else.
  by rewrite Hget, He.
Qed.

End SafeGetRequestFacts.

(** ** Requests, files *)

Lemma requests_head_run url w :
  requests_head url w = (net_head (net w) url, add_logs w [EHead url]).
Proof. reflexivity. Qed.

Lemma requests_get_run url hdr w :
  requests_get url hdr w = (net_get (net w) url hdr, add_logs w [EGet url hdr]).
Proof. reflexivity. Qed.

Lemma insert_alter_same {V} (m : gmap string V) (g : V → V) f x :
  <[f := x]> (alter g f m) = <[f := x]> m.
Proof.
  apply map_eq. intros i. destruct (decide (f = i)) as [->|Hne].
  - by rewrite !lookup_insert_eq.
  - by rewrite !lookup_insert_ne, lookup_alter_ne.
Qed.

Lemma open_write_run file mode w :
  mode ≠ Rb →
  open_write file mode w =
    (Ok file,
     mkWorld (<[file := match mode with
                        | Ab => default [] (fs w !! file)
                        | _ => []
                        end]> (fs w))
       (net w) (log w ++ [EOpen file mode])).
Proof.
  intros Hmode. unfold open_write, bind, emit. simpl.
  destruct mode; try done.
  destruct (fs w !! file) as [content|] eqn:Hf; simpl; [|done].
  unfold add_log. by rewrite insert_id.
Qed.

Lemma mode_of_write resume_byte_pos : mode_of resume_byte_pos ≠ Rb.
Proof. unfold mode_of. by destruct (truthy resume_byte_pos). Qed.

Lemma write_chunks_run f chunks : ∀ n total w before,
  fs w !! f = Some before →
  ∃ n', write_chunks f chunks n total w =
    (Ok n', mkWorld (<[f := before ++ concat chunks]> (fs w)) (net w)
              (log w ++ pbar_events n total chunks)).
Proof.
  induction chunks as [|chunk rest IH]; intros n total w before Hf.
  - exists n. simpl. unfold ret. destruct w as [fs0 net0 log0]. simpl in *.
    by rewrite !app_nil_r, insert_id.
  - destruct (IH (n + Z.of_nat (length chunk)) total
      (add_logs (set_fs w (alter (λ c, c ++ chunk) f (fs w)))
         [EPbar (n + Z.of_nat (length chunk)) total]) (before ++ chunk))
      as [n' Hrest].
    { simpl. by rewrite lookup_alter_eq, Hf. }
    exists n'. simpl. unfold bind at 1. unfold f_write at 1.
    unfold bind at 1. unfold pbar_update at 1. unfold bind at 1.
    unfold emit at 1. unfold ret at 1. unfold add_log.
    fold (add_logs (set_fs w (alter (λ c, c ++ chunk) f (fs w)))
            [EPbar (n + Z.of_nat (length chunk)) total]).
    rewrite Hrest. simpl. f_equal. f_equal.
    + by rewrite insert_alter_same, app_assoc.
    + by rewrite <- app_assoc.
Qed.

Section DownloaderFacts.
Context `{Definitions} `{Library}.
Variable self : SafeDownloader.

(** [downloader] is one more HEAD probe and one transfer, whose headers, mode
    and start are set by the truth value of [resume_byte_pos]. *)
Lemma downloader_run position resume_byte_pos w url name R :
  py_index (urls self) position = Some url →
  py_index (file_names self) position = Some name →
  probed w url R →
  downloader self position resume_byte_pos w =
    transfer self url (file_of self name)
      (resume_header resume_byte_pos) (mode_of resume_byte_pos)
      (initial_pos resume_byte_pos) R
      (match mode_of resume_byte_pos with
       | Ab => default [] (fs w !! file_of self name)
       | _ => []
       end)
      (add_logs w [EHead url]).
Proof.
  intros Hurl Hname (r & Hhead & Hlen).
  unfold downloader.
  erewrite bind_run by (by apply getitem_run).
  erewrite bind_run by (rewrite requests_head_run, Hhead; reflexivity).
  erewrite bind_run by (unfold content_length, lift_result; rewrite Hlen; reflexivity).
  unfold transfer. simpl.
  unfold bind at 1. rewrite requests_get_run. simpl.
  destruct (net_get (net w) url (resume_header resume_byte_pos))
    as [r2|e] eqn:Hget; [|done].
  erewrite bind_run by (by apply getitem_run).
  erewrite bind_run by apply open_write_run, mode_of_write.
  erewrite bind_run by reflexivity.
  destruct (iter_content r2 (32 * block_size self)) as [chunks broken].
  edestruct (write_chunks_run (path_join (outfile self) name) chunks
    (initial_pos resume_byte_pos) R) as [n' Hwrite];
    [|erewrite bind_run by apply Hwrite].
  { simpl. apply lookup_insert_eq. }
  unfold file_of. simpl. rewrite insert_insert_eq.
  rewrite <- !app_assoc. simpl.
  by destruct broken.
Qed.

(** What [download_file] does before it looks at the destination. *)
Lemma download_file_probe position w url name R :
  py_index (urls self) position = Some url →
  py_index (file_names self) position = Some name →
  probed w url R →
  download_file self position w =
    match fs w !! file_of self name with
    | Some content =>
        if negb (R =? Z.of_nat (length content)) then
          downloader self position (Some (Z.of_nat (length content)))
            (add_logs w ([EHead url] ++
               shown (_v self) VERBOSE_program_warning
                 (DOWNLOAD_INCOMPLETE_WRN (file_of self name))))
        else
          (Ok tt, add_logs w ([EHead url] ++
             shown (_v self) VERBOSE_program_progress
               (DOWNLOAD_COMPLETE_MSG (file_of self name))))
    | None =>
        downloader self position None
          (add_logs w ([EHead url] ++
             shown (_v self) VERBOSE_program_progress
               (DOWNLOAD_START_MSG (file_of self name))))
    end.
Proof.
  intros Hurl Hname (r & Hhead & Hlen).
  unfold download_file.
  erewrite bind_run by (by apply getitem_run).
  erewrite bind_run by (rewrite requests_head_run, Hhead; reflexivity).
  erewrite bind_run by (unfold content_length, lift_result; rewrite Hlen; reflexivity).
  erewrite bind_run by (by apply getitem_run).
  erewrite bind_run by reflexivity.
  fold (file_of self name). simpl.
  destruct (fs w !! file_of self name) as [content|] eqn:Hfile.
  - rewrite bool_decide_eq_true_2 by eauto.
    erewrite bind_run by (unfold st_size; simpl; rewrite Hfile; reflexivity).
    destruct (negb (R =? Z.of_nat (length content))).
    + erewrite bind_run by apply print_if_run. by rewrite add_logs_app.
    + by rewrite print_if_run, add_logs_app.
  - rewrite bool_decide_eq_false_2 by (intros [? ?]; done).
    erewrite bind_run by apply print_if_run. by rewrite add_logs_app.
Qed.

(** When the probe is not answered, [download_file] raises what
    [requests.head] raised, before it looks at the destination. *)
Lemma download_file_probe_raises position w url e :
  py_index (urls self) position = Some url →
  net_head (net w) url = Raise e →
  download_file self position w = (Raise e, add_logs w [EHead url]).
Proof.
  intros Hurl Hhead. unfold download_file.
  erewrite bind_run by (by apply getitem_run).
  by erewrite bind_raise by (rewrite requests_head_run, Hhead; reflexivity).
Qed.

(** C3.  An item whose destination does not exist, once the HEAD probe is
    answered: [download_file] hands the download-started message to
    [print_if] (level [program_progress]) and calls [downloader] with no
    resume position; that call is a transfer whose GET request carries no
    headers (no [Range]) and whose destination is opened in mode [wb], so the
    file becomes the chunks received and the progress starts at 0. *)
Theorem download_file_fresh position w url name R :
  py_index (urls self) position = Some url →
  py_index (file_names self) position = Some name →
  probed w url R →
  fs w !! file_of self name = None →
  let started :=
    add_logs w ([EHead url] ++
      shown (_v self) VERBOSE_program_progress
        (DOWNLOAD_START_MSG (file_of self name))) in
  download_file self position w = downloader self position None started
  ∧ downloader self position None started =
      transfer self url (file_of self name) None Wb 0 R []
        (add_logs started [EHead url]).
Proof.
  intros Hurl Hname Hprobe Hfile started. split.
  - rewrite (download_file_probe position w url name R) by done.
    by rewrite Hfile.
  - by rewrite (downloader_run position None started url name R).
Qed.

Lemma resume_header_pos L :
  0 < L →
  resume_header (Some L) = Some {[ "Range" := "bytes=" +:+ pretty L +:+ "-" ]}
  ∧ mode_of (Some L) = Ab ∧ initial_pos (Some L) = L.
Proof.
  intros HL. unfold resume_header, mode_of, initial_pos, truthy.
  by rewrite (proj2 (Z.eqb_neq L 0)) by lia.
Qed.

(** C1, as the code has it.  An item whose destination exists with a size [L]
    other than the probed size [R]: [download_file] hands the
    incomplete-resuming message to [print_if] (level [program_warning]) and
    calls [downloader] with resume position [L].  For [0 < L] that call is a
    transfer whose GET request carries [Range: bytes=L-] and whose
    destination is opened in mode [ab]: the chunks received go behind the
    bytes already there, and the progress starts at [L].  For [L = 0] the
    resume position is false as a truth value, and the call is the transfer
    of a fresh download: no headers, mode [wb], progress from 0. *)
Theorem download_file_resume position w url name R content :
  py_index (urls self) position = Some url →
  py_index (file_names self) position = Some name →
  probed w url R →
  fs w !! file_of self name = Some content →
  Z.of_nat (length content) ≠ R →
  let L := Z.of_nat (length content) in
  let resumed :=
    add_logs w ([EHead url] ++
      shown (_v self) VERBOSE_program_warning
        (DOWNLOAD_INCOMPLETE_WRN (file_of self name))) in
  download_file self position w = downloader self position (Some L) resumed
  ∧ (0 < L →
     downloader self position (Some L) resumed =
       transfer self url (file_of self name)
         (Some {[ "Range" := "bytes=" +:+ pretty L +:+ "-" ]}) Ab L R content
         (add_logs resumed [EHead url]))
  ∧ (L = 0 →
     downloader self position (Some L) resumed =
       transfer self url (file_of self name) None Wb 0 R []
         (add_logs resumed [EHead url])).
Proof.
  intros Hurl Hname Hprobe Hfile Hne L resumed. split; [|split].
  - rewrite (download_file_probe position w url name R) by done.
    rewrite Hfile. by rewrite (proj2 (Z.eqb_neq R _)) by done.
  - intros HL. destruct (resume_header_pos L HL) as (Hh & Hm & Hi).
    rewrite (downloader_run position (Some L) resumed url name R) by done.
    rewrite Hh, Hm, Hi. simpl. by rewrite Hfile.
  - intros HL.
    rewrite (downloader_run position (Some L) resumed url name R) by done.
    by rewrite HL.
Qed.

(** ** Skipping what is complete *)

Lemma complete_item_add_logs w evs position :
  complete_item self w position → complete_item self (add_logs w evs) position.
Proof. done. Qed.

Lemma download_file_skip position w :
  complete_item self w position →
  download_file self position w = (Ok tt, add_logs w (skip_events self position)).
Proof.
  intros (url & name & content & Hurl & Hname & Hfile & Hprobe).
  rewrite (download_file_probe position w url name _ Hurl Hname Hprobe).
  rewrite Hfile, Z.eqb_refl. simpl.
  unfold skip_events. by rewrite Hurl, Hname.
Qed.

Lemma for_each_skip (l : list Z) : ∀ w,
  (∀ i, i ∈ l → complete_item self w i) →
  for_each l (download_file self) w =
    (Ok tt, add_logs w (concat (skip_events self <$> l))).
Proof.
  induction l as [|i l IH]; intros w Hall.
  - simpl. by rewrite add_logs_nil.
  - simpl. erewrite bind_run
      by (apply download_file_skip, Hall; left).
    rewrite IH.
    + by rewrite add_logs_app.
    + intros j Hj. apply complete_item_add_logs, Hall. by right.
Qed.

Lemma elem_of_py_range i n : i ∈ py_range n ↔ 0 ≤ i < Z.of_nat n.
Proof.
  unfold py_range. rewrite list_elem_of_fmap. split.
  - intros (k & -> & Hk). apply elem_of_seq in Hk. lia.
  - intros Hi. exists (Z.to_nat i). split; [lia|]. apply elem_of_seq. lia.
Qed.

Lemma skip_events_probe_or_print (l : list Z) :
  Forall probe_or_print (concat (skip_events self <$> l)).
Proof.
  induction l as [|i l IH]; [constructor|].
  simpl. unfold shown. destruct (_ >=? _); simpl; repeat constructor; done.
Qed.

(** C2.  An item whose destination exists with the size the probe
    advertises: [download_file] returns after its HEAD probe and the
    already-downloaded message (level [program_progress]), the files are as
    before.  When every item of the batch is so, [download] sends HEAD probes
    and nothing else, leaves the files as they are, and a second [download]
    does the same again. *)
Theorem download_skip_idempotent w :
  (∀ position, complete_item self w position →
     download_file self position w =
       (Ok tt, add_logs w (skip_events self position))
     ∧ fs (download_file self position w).2 = fs w)
  ∧ ((∀ i, 0 ≤ i < Z.of_nat (length (urls self)) → complete_item self w i) →
     let evs := concat (skip_events self <$> py_range (length (urls self))) in
     download self w = (Ok tt, add_logs w evs)
     ∧ download self (add_logs w evs) = (Ok tt, add_logs (add_logs w evs) evs)
     ∧ fs (download self w).2 = fs w
     ∧ Forall probe_or_print evs).
Proof.
  split.
  - intros position Hitem. rewrite download_file_skip by done. done.
  - intros Hall evs.
    assert (Hrun : ∀ w', fs w' = fs w → net w' = net w →
              download self w' = (Ok tt, add_logs w' evs)).
    { intros w' Hfs Hnet. unfold download. apply for_each_skip.
      intros i Hi. apply elem_of_py_range in Hi.
      destruct (Hall i Hi) as (url & name & content & ? & ? & ? & ?).
      exists url, name, content. unfold probed. rewrite Hfs, Hnet. done. }
    repeat split.
    + by apply Hrun.
    + by apply Hrun.
    + by rewrite Hrun.
    + apply skip_events_probe_or_print.
Qed.

(** ** The batch loop *)

Lemma for_each_app {A} (l1 l2 : list A) (body : A → M unit) w :
  for_each (l1 ++ l2) body w =
    match for_each l1 body w with
    | (Ok _, w') => for_each l2 body w'
    | (Raise e, w') => (Raise e, w')
    end.
Proof.
  revert w. induction l1 as [|x l1 IH]; intros w; [done|].
  simpl. unfold bind. destruct (body x w) as [[[]|e] w']; [apply IH|done].
Qed.

Lemma py_range_split (n k : nat) :
  (k < n)%nat →
  py_range n = py_range k ++ Z.of_nat k :: (Z.of_nat <$> seq (S k) (n - S k)).
Proof.
  intros Hk. unfold py_range.
  replace n with (k + S (n - S k))%nat at 1 by lia.
  by rewrite seq_app, fmap_app.
Qed.

Lemma py_range_S (k : nat) : py_range (S k) = py_range k ++ [Z.of_nat k].
Proof. unfold py_range. by rewrite seq_S, fmap_app. Qed.

(** C7, as the code has it.  [download] takes the positions
    [0, 1, ..., len(urls) - 1] in this order, each from the world the one
    before left.  When [download_file] returns at position [k], the loop goes
    on to [k + 1]; when it raises, [download] raises the same exception from
    the same world: nothing catches it and no later position is visited. *)
Theorem download_in_order_until_failure w (k : nat) wk :
  (k < length (urls self))%nat →
  download_upto self k w = (Ok tt, wk) →
  match download_file self (Z.of_nat k) wk with
  | (Ok _, wk') => download_upto self (S k) w = (Ok tt, wk')
  | (Raise e, wk') => download self w = (Raise e, wk')
  end.
Proof.
  intros Hk Hupto.
  destruct (download_file self (Z.of_nat k) wk) as [[[]|e] wk'] eqn:Hitem.
  - unfold download_upto in *. rewrite py_range_S, for_each_app, Hupto.
    simpl. unfold bind. by rewrite Hitem.
  - unfold download, download_upto in *.
    rewrite (py_range_split _ k Hk), for_each_app, Hupto.
    simpl. unfold bind. by rewrite Hitem.
Qed.

(** When no position raises, the loop reaches the end. *)
Lemma download_upto_all w : download self w = download_upto self (length (urls self)) w.
Proof. reflexivity. Qed.

End DownloaderFacts.

(** ** Hashing in reads of bounded size *)

(** The digests of the standard test messages: the empty one, ["abc"], and
    the 56 bytes that need a second block for the padding. *)
Example sha256_empty :
  sha256_one_shot [] =
  "e3b0c44298fc1c149afbf4c8996fb92427ae41e4649b934ca495991b7852b855".
Proof. vm_compute. reflexivity. Qed.

Example sha256_abc :
  sha256_one_shot [x61; x62; x63] =
  "ba7816bf8f01cfea414140de5dae2223b00361a396177a9cb410ff61f20015ad".
Proof. vm_compute. reflexivity. Qed.

Example sha256_two_blocks :
  sha256_one_shot
    [x61; x62; x63; x64; x62; x63; x64; x65; x63; x64; x65; x66; x64; x65;
     x66; x67; x65; x66; x67; x68; x66; x67; x68; x69; x67; x68; x69; x6a;
     x68; x69; x6a; x6b; x69; x6a; x6b; x6c; x6a; x6b; x6c; x6d; x6b; x6c;
     x6d; x6e; x6c; x6d; x6e; x6f; x6d; x6e; x6f; x70; x6e; x6f; x70; x71] =
  "248d6a61d20638b8e5c026930c3e6039a33ce45964ff2167f6ecedd419db06c1".
Proof. vm_compute. reflexivity. Qed.

(** Fed in two parts, 100 and 19 bytes, as in one. *)
Example sha256_in_parts :
  hexdigest (sha_update (sha_update sha256_new (replicate 100 x61))
               (replicate 19 x61)) =
  "31eba51c313a5c08226adf18d4a359cfdfd8d2e816b13f4af952f7ea6584dcfb".
Proof. vm_compute. reflexivity. Qed.

Lemma hex_digit_lower (n : Z) :
  0 ≤ n < 16 → is_lower_hex (SHA256.hex_digit n) = true.
Proof.
  intros Hn. rewrite <- (Z2Nat.id n) by lia.
  assert (Hk : (Z.to_nat n < 16)%nat) by lia.
  revert Hk. generalize (Z.to_nat n). intros k Hk.
  do 16 (destruct k as [|k]; [reflexivity|]). lia.
Qed.

(** [hexdigest] gives 64 characters of lowercase hexadecimal. *)
Lemma hexdigest_lower_hex (sha : sha256_obj) :
  length (String.list_ascii_of_string (hexdigest sha)) = 64%nat
  ∧ Forall (λ c, is_lower_hex c = true)
      (String.list_ascii_of_string (hexdigest sha)).
Proof.
  unfold hexdigest, SHA256.hex_chain.
  rewrite String.list_ascii_of_string_of_list_ascii.
  split; [reflexivity|].
  apply Forall_concat, Forall_fmap, Forall_forall. intros x _.
  apply Forall_fmap, Forall_forall. intros i _. simpl.
  apply hex_digit_lower. change 15 with (Z.ones 4).
  rewrite Z.land_ones by lia. apply Z.mod_pos_bound. lia.
Qed.

Lemma absorb_app (a b : bytes) : ∀ h buf,
  SHA256.absorb h buf (a ++ b) =
    SHA256.absorb (SHA256.absorb h buf a).1 (SHA256.absorb h buf a).2 b.
Proof.
  induction a as [|x a IH]; intros h buf; [done|].
  simpl. destruct (length (buf ++ [x]) =? 64)%nat; apply IH.
Qed.

Lemma sha_update_nil sha : sha_update sha [] = sha.
Proof. destruct sha. unfold sha_update. simpl. f_equal. lia. Qed.

(** [m.update(a); m.update(b)] is [m.update(a + b)]. *)
Lemma sha_update_app sha a b :
  sha_update (sha_update sha a) b = sha_update sha (a ++ b).
Proof.
  unfold sha_update. rewrite absorb_app.
  destruct (SHA256.absorb (chaining sha) (buffer sha) a) as [h buf]. simpl.
  destruct (SHA256.absorb h buf b) as [h' buf'].
  f_equal. rewrite length_app. lia.
Qed.

(** The loop absorbs the whole file, whatever the size of a read. *)
Lemma read_loop_absorbs (size : nat) (f : bytes) (sha : sha256_obj) :
  (0 < size)%nat → read_loop size f sha = sha_update sha f.
Proof.
  intros Hsize. funelim (read_loop size f sha).
  - destruct f as [|b f]; [by rewrite sha_update_nil|].
    destruct size; [lia|discriminate].
  - rewrite H by done. rewrite sha_update_app, <- Hread.
    by rewrite take_drop.
Qed.

Lemma READ_SIZE_pos : (0 < READ_SIZE)%nat.
Proof. unfold READ_SIZE. lia. Qed.

Section ValidationFacts.
Context `{Definitions} `{Library}.
Variable self : SafeDownloader.

Lemma open_rb_run file w :
  open_rb file w =
    match fs w !! file with
    | Some content => (Ok content, add_logs w [EOpen file Rb])
    | None => (Raise FileNotFoundError, add_logs w [EOpen file Rb])
    end.
Proof.
  unfold open_rb, bind, emit. simpl. by destruct (fs w !! file).
Qed.

(** [validate_file], case by case. *)
Lemma validate_file_run position w name :
  py_index (file_names self) position = Some name →
  validate_file self position w =
    match url_hashes self with
    | None => (Raise TypeError, w)
    | Some hashes =>
        match py_index hashes position with
        | None => (Ok (Some 0), add_logs w (signal self name NoHashAvailable))
        | Some hash =>
            match fs w !! file_of self name with
            | None =>
                (Raise FileNotFoundError,
                 add_logs w [EOpen (file_of self name) Rb])
            | Some content =>
                (Ok None,
                 add_logs w
                   (EOpen (file_of self name) Rb ::
                    signal self name
                      (if decide (sha256_one_shot content = hash)
                       then Validated else HashMismatch)))
            end
        end
    end.
Proof.
  intros Hname. unfold validate_file.
  erewrite bind_run by (by apply getitem_run).
  unfold try_except_else at 1. unfold hash_at.
  destruct (url_hashes self) as [hashes|]; [|done].
  unfold getitem at 1.
  destruct (py_index hashes position) as [hash|];
    [unfold ret at 1|unfold raise at 1]; cbv beta iota delta [is_IndexError].
  2: { erewrite bind_run by apply print_if_run. done. }
  unfold bind at 1. rewrite open_rb_run. fold (file_of self name).
  destruct (fs w !! file_of self name) as [content|]; [|done].
  rewrite read_loop_absorbs by apply READ_SIZE_pos.
  fold (sha256_one_shot content).
  unfold bind, try_except_else, py_assert.
  destruct (String.eqb_spec (sha256_one_shot content) hash) as [Heq|Hne].
  - rewrite decide_True by done. simpl.
    by rewrite print_if_run, add_logs_app.
  - rewrite decide_False by done. simpl.
    rewrite (getitem_run _ _ _ _ Hname), print_if_run, add_logs_app. done.
Qed.

(** The path of [except IndexError].  An item whose position is outside a
    list of hashes that was given: [validate_file] does not raise; it hands
    the no-hash message to [print_if] (level [program_warning]), which is the
    signal of [NoHashAvailable], and returns ([return 0]); the files are as
    before. *)
Theorem validate_file_no_hash position w name hashes :
  py_index (file_names self) position = Some name →
  url_hashes self = Some hashes →
  py_index hashes position = None →
  validate_file self position w =
    (Ok (Some 0), add_logs w (signal self name NoHashAvailable)).
Proof.
  intros Hname Hhashes Hnone.
  by rewrite (validate_file_run position w name Hname), Hhashes, Hnone.
Qed.

(** When no list of hashes was given at all ([url_hashes=None], the default
    of the constructor), the subscript raises [TypeError], which the
    [except IndexError] does not catch. *)
Lemma validate_file_hashes_None position w name :
  py_index (file_names self) position = Some name →
  url_hashes self = None →
  validate_file self position w = (Raise TypeError, w).
Proof.
  intros Hname Hhashes.
  by rewrite (validate_file_run position w name Hname), Hhashes.
Qed.

(** C6.  An item with an expected hash, whose destination is on disk:
    [validate_file] does not raise and changes no file; it signals
    [Validated] (the validation message, level [program_progress]) exactly
    when the SHA-256 hex digest of the file's content (lowercase, see
    [hexdigest_lower_hex]) equals the expected hash, and [HashMismatch] (the
    corruption message, level [program_warning]) otherwise. *)
Theorem validate_file_verdict position w name hashes hash content :
  py_index (file_names self) position = Some name →
  url_hashes self = Some hashes →
  py_index hashes position = Some hash →
  fs w !! file_of self name = Some content →
  validate_file self position w =
    (Ok None,
     add_logs w
       (EOpen (file_of self name) Rb ::
        signal self name
          (if decide (sha256_one_shot content = hash)
           then Validated else HashMismatch)))
  ∧ fs (validate_file self position w).2 = fs w.
Proof.
  intros Hname Hhashes Hhash Hfile.
  rewrite (validate_file_run position w name Hname), Hhashes, Hhash, Hfile.
  done.
Qed.

(** C10.  An item with an expected hash, whose destination is not on disk:
    [validate_file] raises [FileNotFoundError] from [open(file, 'rb')];
    nothing in [validate_file] catches it, and nothing is printed. *)
Theorem validate_file_missing_file position w name hashes hash :
  py_index (file_names self) position = Some name →
  url_hashes self = Some hashes →
  py_index hashes position = Some hash →
  fs w !! file_of self name = None →
  validate_file self position w =
    (Raise FileNotFoundError, add_logs w [EOpen (file_of self name) Rb]).
Proof.
  intros Hname Hhashes Hhash Hfile.
  by rewrite (validate_file_run position w name Hname), Hhashes, Hhash, Hfile.
Qed.

(** C5.  The SHA-256 digest that the loop of [validate_file] reaches by reads
    of [1000 * 1000] bytes, one [update] per read, is the digest of the whole
    content fed in one [update]; and what [validate_file] returns and prints
    is settled by the content of the destination: in two worlds that hold the
    same file, it is the same. *)
Theorem streaming_digest_is_one_shot :
  (∀ content : bytes,
     hexdigest (read_loop READ_SIZE content sha256_new) =
     sha256_one_shot content)
  ∧ (∀ position w1 w2,
       (∀ name, py_index (file_names self) position = Some name →
          fs w1 !! file_of self name = fs w2 !! file_of self name) →
       ∃ res evs,
         validate_file self position w1 = (res, add_logs w1 evs) ∧
         validate_file self position w2 = (res, add_logs w2 evs)).
Proof.
  split.
  - intros content. by rewrite read_loop_absorbs by apply READ_SIZE_pos.
  - intros position w1 w2 Hsame.
    destruct (py_index (file_names self) position) as [name|] eqn:Hname.
    + rewrite !(validate_file_run position _ name Hname).
      rewrite <- (Hsame name eq_refl).
      destruct (url_hashes self) as [hashes|].
      2: { exists (Raise TypeError), []. by rewrite !add_logs_nil. }
      destruct (py_index hashes position) as [hash|]; [|eauto].
      destruct (fs w1 !! file_of self name); eauto.
    + exists (Raise IndexError), []. rewrite !add_logs_nil.
      unfold validate_file, bind, getitem. by rewrite Hname.
Qed.

End ValidationFacts.

(** ** No file is ever deleted *)

#[local] Instance keeps_files_preorder : PreOrder keeps_files.
Proof.
  split; [intros w; unfold keeps_files; set_solver|].
  intros w1 w2 w3. unfold keeps_files. set_solver.
Qed.

#[local] Instance appends_only_preorder : PreOrder appends_only.
Proof.
  split.
  - intros w path content Hp. exists []. by rewrite app_nil_r.
  - intros w1 w2 w3 H12 H23 path content Hp.
    destruct (H12 _ _ Hp) as [e1 Hp2]. destruct (H23 _ _ Hp2) as [e2 Hp3].
    exists (e1 ++ e2). by rewrite app_assoc.
Qed.

#[local] Instance same_files_preorder : PreOrder same_files.
Proof.
  split; [done|]. intros w1 w2 w3. unfold same_files. congruence.
Qed.

Lemma same_files_appends w w' : same_files w w' → appends_only w w'.
Proof.
  intros Hsame path content Hp. exists []. rewrite app_nil_r.
  unfold same_files in Hsame. by rewrite Hsame.
Qed.

Lemma appends_only_keeps w w' : appends_only w w' → keeps_files w w'.
Proof.
  intros Happ path Hin. apply elem_of_dom in Hin as [content Hp].
  destruct (Happ _ _ Hp) as [extra Hp']. apply elem_of_dom. eauto.
Qed.

Section Preserves.
Context (rel : world → world → Prop) `{!PreOrder rel}.

Lemma preserves_ret {A} (a : A) : preserves rel (ret a).
Proof. intros w. simpl. reflexivity. Qed.

Lemma preserves_raise {A} (e : exn) : preserves rel (@raise A e).
Proof. intros w. simpl. reflexivity. Qed.

Lemma preserves_bind {A B} (m : M A) (k : A → M B) :
  preserves rel m → (∀ a, preserves rel (k a)) → preserves rel (bind m k).
Proof.
  intros Hm Hk w. unfold bind. specialize (Hm w).
  destruct (m w) as [[a|e] w']; simpl in *; [|done].
  etrans; [exact Hm|apply Hk].
Qed.

Lemma preserves_try {A B} (body : M A) catches (handler : exn → M B) orelse :
  preserves rel body → (∀ e, preserves rel (handler e)) →
  (∀ a, preserves rel (orelse a)) →
  preserves rel (try_except_else body catches handler orelse).
Proof.
  intros Hbody Hhandler Horelse w. unfold try_except_else.
  specialize (Hbody w). destruct (body w) as [[a|e] w']; simpl in *.
  - etrans; [exact Hbody|apply Horelse].
  - destruct (catches e); [|done]. etrans; [exact Hbody|apply Hhandler].
Qed.

Lemma preserves_for_each {A} (l : list A) (body : A → M unit) :
  (∀ x, preserves rel (body x)) → preserves rel (for_each l body).
Proof.
  intros Hbody. induction l as [|x l IH]; simpl.
  - apply preserves_ret.
  - apply preserves_bind; [apply Hbody|intros _; apply IH].
Qed.

Lemma preserves_getitem {A} (l : list A) i : preserves rel (getitem l i).
Proof.
  unfold getitem. destruct (py_index l i);
    [by apply preserves_ret|by apply preserves_raise].
Qed.

(** A statement that leaves the files alone stands in every such relation
    that the three above imply. *)
Lemma preserves_same_files {A} (m : M A) :
  (∀ w w', same_files w w' → rel w w') →
  preserves same_files m → preserves rel m.
Proof. intros Hweak Hm w. apply Hweak, Hm. Qed.

End Preserves.

(** Apply a lemma of the section above; the relation is one of the three. *)
Ltac rel_apply lem := apply lem; try apply _.

Lemma same_files_emit e : preserves same_files (emit e).
Proof. done. Qed.

Lemma same_files_print_if verbose thr text :
  preserves same_files (print_if verbose thr text).
Proof. intros w. by rewrite print_if_run. Qed.

Lemma same_files_requests_head url : preserves same_files (requests_head url).
Proof. done. Qed.

Lemma same_files_requests_get url hdr :
  preserves same_files (requests_get url hdr).
Proof. done. Qed.

Lemma same_files_content_length `{Library} r :
  preserves same_files (content_length r).
Proof. done. Qed.

Lemma same_files_path_exists file : preserves same_files (path_exists file).
Proof. done. Qed.

Lemma same_files_st_size file : preserves same_files (st_size file).
Proof. intros w. unfold st_size. by destruct (fs w !! file). Qed.

Lemma same_files_open_rb file : preserves same_files (open_rb file).
Proof. intros w. rewrite open_rb_run. by destruct (fs w !! file). Qed.

Lemma keeps_files_open_write file mode :
  preserves keeps_files (open_write file mode).
Proof.
  intros w. unfold open_write, bind, emit, keeps_files. simpl.
  destruct mode, (fs w !! file); simpl; rewrite ?dom_insert; set_solver.
Qed.

Lemma keeps_files_f_write f chunk : preserves keeps_files (f_write f chunk).
Proof.
  intros w. unfold keeps_files, f_write. simpl. by rewrite dom_alter.
Qed.

Lemma keeps_files_same {A} (m : M A) :
  preserves same_files m → preserves keeps_files m.
Proof.
  apply preserves_same_files. intros w w' Hsame.
  by apply appends_only_keeps, same_files_appends.
Qed.

Lemma keeps_files_write_chunks f chunks : ∀ n total,
  preserves keeps_files (write_chunks f chunks n total).
Proof.
  induction chunks as [|chunk rest IH]; intros n total; cbn [write_chunks].
  - rel_apply preserves_ret.
  - rel_apply preserves_bind; [apply keeps_files_f_write|intros _].
    rel_apply preserves_bind; [|intros n'; apply IH].
    unfold pbar_update. rel_apply preserves_bind; [|intros _].
    + apply keeps_files_same, same_files_emit.
    + rel_apply preserves_ret.
Qed.

Section CoreFiles.
Context `{Definitions} `{Library}.
Variable self : SafeDownloader.

Lemma keeps_files_downloader position resume_byte_pos :
  preserves keeps_files (downloader self position resume_byte_pos).
Proof.
  unfold downloader.
  rel_apply preserves_bind; [rel_apply preserves_getitem|intros url].
  rel_apply preserves_bind;
    [apply keeps_files_same, same_files_requests_head|intros r].
  rel_apply preserves_bind;
    [apply keeps_files_same, same_files_content_length|intros file_size].
  rel_apply preserves_bind;
    [apply keeps_files_same, same_files_requests_get|intros r2].
  rel_apply preserves_bind; [rel_apply preserves_getitem|intros name].
  rel_apply preserves_bind; [apply keeps_files_open_write|intros f].
  rel_apply preserves_bind; [apply keeps_files_same, same_files_emit|intros _].
  destruct (iter_content r2 (32 * block_size self)) as [chunks broken].
  rel_apply preserves_bind; [apply keeps_files_write_chunks|intros _].
  destruct broken; [rel_apply preserves_raise|rel_apply preserves_ret].
Qed.

Lemma same_files_validate_file position :
  preserves same_files (validate_file self position).
Proof.
  unfold validate_file.
  rel_apply preserves_bind; [rel_apply preserves_getitem|intros name].
  rel_apply preserves_try.
  - unfold hash_at. destruct (url_hashes self);
      [rel_apply preserves_getitem|rel_apply preserves_raise].
  - intros _. rel_apply preserves_bind;
      [apply same_files_print_if|intros _; rel_apply preserves_ret].
  - intros hash.
    rel_apply preserves_bind; [apply same_files_open_rb|intros f].
    rel_apply preserves_bind; [|intros _; rel_apply preserves_ret].
    rel_apply preserves_try.
    + unfold py_assert. destruct (String.eqb _ _);
        [rel_apply preserves_ret|rel_apply preserves_raise].
    + intros _. rel_apply preserves_bind;
        [rel_apply preserves_getitem|intros file; apply same_files_print_if].
    + intros _. apply same_files_print_if.
Qed.

Lemma same_files_validate : preserves same_files (validate self).
Proof.
  unfold validate. rel_apply preserves_for_each. intros position.
  rel_apply preserves_bind;
    [apply same_files_validate_file|intros _; rel_apply preserves_ret].
Qed.

(** A transfer changes at most its destination, to [before] and more. *)
Lemma transfer_fs url file hdr mode start total before w :
  let w' := (transfer self url file hdr mode start total before w).2 in
  fs w' = fs w ∨ ∃ extra, fs w' = <[file := before ++ extra]> (fs w).
Proof.
  unfold transfer. destruct (net_get (net w) url hdr) as [r|e]; [|by left].
  destruct (iter_content r (32 * block_size self)) as [chunks broken].
  right. by exists (concat chunks).
Qed.

Lemma appends_only_transfer url file hdr mode start total before w :
  (∀ content, fs w !! file = Some content → before = content) →
  appends_only w (transfer self url file hdr mode start total before w).2.
Proof.
  intros Hbefore.
  destruct (transfer_fs url file hdr mode start total before w)
    as [Hsame|[extra Hext]].
  - by apply same_files_appends.
  - intros path content Hpath. rewrite Hext.
    destruct (decide (file = path)) as [->|Hne].
    + exists extra. rewrite lookup_insert_eq. by rewrite (Hbefore _ Hpath).
    + exists []. by rewrite lookup_insert_ne, app_nil_r.
Qed.

Lemma appends_only_download_file position :
  preserves appends_only (download_file self position).
Proof.
  intros w.
  destruct (py_index (urls self) position) as [url|] eqn:Hurl.
  2: { unfold download_file, bind, getitem. rewrite Hurl. reflexivity. }
  destruct (net_head (net w) url) as [r|e] eqn:Hhead.
  2: { unfold download_file.
       erewrite bind_run by (by apply getitem_run).
       erewrite bind_raise by (rewrite requests_head_run, Hhead; reflexivity).
       by apply same_files_appends. }
  destruct (content_length_of r) as [R|e] eqn:Hlen.
  2: { unfold download_file.
       erewrite bind_run by (by apply getitem_run).
       erewrite bind_run by (rewrite requests_head_run, Hhead; reflexivity).
       erewrite bind_raise
         by (unfold content_length, lift_result; rewrite Hlen; reflexivity).
       by apply same_files_appends. }
  destruct (py_index (file_names self) position) as [name|] eqn:Hname.
  2: { unfold download_file.
       erewrite bind_run by (by apply getitem_run).
       erewrite bind_run by (rewrite requests_head_run, Hhead; reflexivity).
       erewrite bind_run
         by (unfold content_length, lift_result; rewrite Hlen; reflexivity).
       erewrite bind_raise by (unfold getitem; rewrite Hname; reflexivity).
       by apply same_files_appends. }
  assert (Hprobe : probed w url R) by (by exists r).
  rewrite (download_file_probe self position w url name R) by done.
  destruct (fs w !! file_of self name) as [content|] eqn:Hfile.
  - destruct (negb (R =? Z.of_nat (length content))); simpl;
      [|by apply same_files_appends].
    rewrite (downloader_run self position _ _ url name R) by done.
    etrans; [|apply appends_only_transfer]; [by apply same_files_appends|].
    simpl. rewrite Hfile. intros content' [= <-].
    unfold mode_of, truthy.
    destruct (Z.of_nat (length content) =? 0) eqn:Hzero; simpl; [|done].
    apply Z.eqb_eq in Hzero. destruct content; [done|simpl in Hzero; lia].
  - rewrite (downloader_run self position _ _ url name R) by done.
    etrans; [|apply appends_only_transfer]; [by apply same_files_appends|].
    simpl. rewrite Hfile. done.
Qed.

Lemma appends_only_download : preserves appends_only (download self).
Proof.
  unfold download. rel_apply preserves_for_each.
  apply appends_only_download_file.
Qed.

(** C8.  None of [downloader], [download_file], [download], [validate_file],
    [validate] removes a file: whatever they return or raise, every path that
    named a file before names one after.  More than that: [download_file]
    and [download] leave in front of every file the bytes it had (the
    truncating mode is used only where there is no file or an empty one),
    and [validate_file] and [validate] leave every file as it is. *)
Theorem core_never_deletes position resume_byte_pos w :
  keeps_files w (downloader self position resume_byte_pos w).2
  ∧ keeps_files w (download_file self position w).2
  ∧ keeps_files w (download self w).2
  ∧ keeps_files w (validate_file self position w).2
  ∧ keeps_files w (validate self w).2
  ∧ appends_only w (download_file self position w).2
  ∧ appends_only w (download self w).2
  ∧ same_files w (validate_file self position w).2
  ∧ same_files w (validate self w).2.
Proof.
  repeat split.
  - apply keeps_files_downloader.
  - apply appends_only_keeps, appends_only_download_file.
  - apply appends_only_keeps, appends_only_download.
  - apply appends_only_keeps, same_files_appends, same_files_validate_file.
  - apply appends_only_keeps, same_files_appends, same_files_validate.
  - apply appends_only_download_file.
  - apply appends_only_download.
  - apply same_files_validate_file.
  - apply same_files_validate.
Qed.

End CoreFiles.

(** ** The two safe requests and the exceptions they let out *)

Section SafeRequestsMore.
Context {T R : Type}.
Variables (url : string) (timeout : T).
Variables (verbose_level : Z) (warning_msg : string) (return_on_failure : R).
Variables (warning_thr raw_err_thr : Z).

Lemma try_connection_error_caught {A} (body : M A) handler w a msg :
  (∀ e w', (handler e w').1 = Ok a) →
  (try_except_else body is_ConnectionError handler (λ r, ret r) w).1
    ≠ Raise (ConnectionError msg).
Proof.
  intros Hhandler. unfold try_except_else.
  destruct (body w) as [[r|e] w']; [done|].
  destruct e; simpl; try done. by rewrite Hhandler.
Qed.

(** X1.  Whatever the session does, no [ConnectionError] leaves
    [safe_get_request] or [safe_post_request]. *)
Theorem safe_requests_never_connection_error
    (gs : Session T R) (ps : PostSession T R) (w : world) (msg : string) :
  (safe_get_request gs url timeout verbose_level warning_msg
     return_on_failure warning_thr raw_err_thr w).1
    ≠ Raise (ConnectionError msg)
  ∧ (safe_post_request ps url timeout verbose_level warning_msg
       return_on_failure warning_thr raw_err_thr w).1
    ≠ Raise (ConnectionError msg).
Proof.
  split; apply (try_connection_error_caught _ _ _ return_on_failure);
    intros e w'; unfold bind; by rewrite !warn_if_run.
Qed.

(** X2.  An exception of the session that is not a [ConnectionError] (a read
    timeout, say) is not caught: both functions raise it, from the world the
    session left, without a warning. *)
Theorem safe_requests_other_exception
    (gs : Session T R) (ps : PostSession T R) (w w1 : world) (e : exn) :
  is_ConnectionError e = false →
  (session_get gs url timeout w = (Raise e, w1) →
   safe_get_request gs url timeout verbose_level warning_msg
     return_on_failure warning_thr raw_err_thr w = (Raise e, w1))
  ∧ (session_post ps url timeout w = (Raise e, w1) →
     safe_post_request ps url timeout verbose_level warning_msg
       return_on_failure warning_thr raw_err_thr w = (Raise e, w1)).
Proof.
  intros He. split; intros Hrun;
    unfold safe_get_request, safe_post_request, try_except_else;
    by rewrite Hrun, He.
Qed.

(** X3.  [safe_post_request] on a [ConnectionError] of [session.post]:
    the sentinel is returned, the warning message is shown exactly when
    [verbose_level >= warning_thr], the text of the error exactly when
    [verbose_level >= raw_err_thr]; a response is handed back as it is. *)
Theorem safe_post_request_sentinel (ps : PostSession T R) (w w1 : world) :
  (∀ msg, session_post ps url timeout w = (Raise (ConnectionError msg), w1) →
     safe_post_request ps url timeout verbose_level warning_msg
       return_on_failure warning_thr raw_err_thr w =
     (Ok return_on_failure,
      add_logs w1 (warned verbose_level warning_thr warning_msg ++
                   warned verbose_level raw_err_thr msg)))
  ∧ (∀ r, session_post ps url timeout w = (Ok r, w1) →
     safe_post_request ps url timeout verbose_level warning_msg
       return_on_failure warning_thr raw_err_thr w = (Ok r, w1)).
Proof.
  split.
  - intros msg Hpost. unfold safe_post_request, try_except_else.
    rewrite Hpost. simpl.
    erewrite bind_run by apply warn_if_run.
    erewrite bind_run by apply warn_if_run.
    by rewrite add_logs_app.
  - intros r Hpost. unfold safe_post_request, try_except_else.
    by rewrite Hpost.
Qed.

End SafeRequestsMore.

(** ** Names and sequences *)

Lemma str_app_cons (c : ascii) (a b : string) :
  String c a +:+ b = String c (a +:+ b).
Proof. reflexivity. Qed.

Lemma str_length_app (a b : string) :
  String.length (a +:+ b) = (String.length a + String.length b)%nat.
Proof.
  induction a as [|c a IH]; [done|].
  rewrite str_app_cons. simpl. by rewrite IH.
Qed.

Lemma str_app_nil_r (a : string) : a +:+ "" = a.
Proof.
  induction a as [|x a IH]; [done|]. rewrite str_app_cons. by f_equal.
Qed.

Lemma substring_0_0 (s : string) : String.substring 0 0 s = "".
Proof. by destruct s. Qed.

Lemma substring_0_app (a b : string) :
  String.substring 0 (String.length a) (a +:+ b) = a.
Proof.
  induction a as [|c a IH]; [apply substring_0_0|].
  rewrite str_app_cons. simpl. by rewrite IH.
Qed.

(** A string is its first [n] characters and the rest. *)
Lemma substring_0_split (n : nat) : ∀ s : string,
  (n ≤ String.length s)%nat →
  ∃ tail, s = String.substring 0 n s +:+ tail
          ∧ String.length tail = (String.length s - n)%nat.
Proof.
  induction n as [|n IH]; intros s Hn.
  - exists s. rewrite substring_0_0. split; [done|lia].
  - destruct s as [|c s]; simpl in *; [lia|].
    destruct (IH s) as (tail & Hs & Hlen); [lia|].
    exists tail. split; [by rewrite str_app_cons, <- Hs|done].
Qed.

Lemma prefix_app (p b : string) : String.prefix p (p +:+ b) = true.
Proof.
  induction p as [|c p IH]; [by destruct b|]. rewrite str_app_cons. simpl.
  by destruct (Ascii.ascii_dec c c).
Qed.

Lemma prefix_inv (p : string) : ∀ s,
  String.prefix p s = true → ∃ b, s = p +:+ b.
Proof.
  induction p as [|c p IH]; intros s Hp; [by exists s|].
  destruct s as [|c' s]; simpl in Hp; [done|].
  destruct (Ascii.ascii_dec c c') as [<-|]; [|done].
  destruct (IH s Hp) as [b ->]. by exists b.
Qed.

(** [sub in s] holds exactly when [s] is [a + sub + b] for some [a], [b]. *)
Lemma str_contains_spec (sub s : string) :
  str_contains sub s = true ↔ ∃ a b, s = a +:+ sub +:+ b.
Proof.
  split.
  - induction s as [|c s IH]; cbn [str_contains]; intros Hc.
    + rewrite orb_false_r in Hc. destruct (prefix_inv _ _ Hc) as [b Hb].
      by exists "", b.
    + apply orb_true_iff in Hc as [Hp|Hc].
      * destruct (prefix_inv _ _ Hp) as [b Hb]. by exists "", b.
      * destruct (IH Hc) as (a & b & ->). by exists (String c a), b.
  - intros (a & b & ->). induction a as [|c a IH].
    + change ("" +:+ sub +:+ b) with (sub +:+ b).
      destruct (sub +:+ b) eqn:Heq; cbn [str_contains];
        rewrite <- Heq, prefix_app; done.
    + rewrite str_app_cons. cbn [str_contains]. by rewrite IH, orb_true_r.
Qed.

(** X4.  A name that ends in [_HUMAN] loses exactly that ending. *)
Theorem name_for_esm_strips_suffix (s : string) :
  name_for_esm (s +:+ "_HUMAN") = s.
Proof.
  unfold name_for_esm.
  rewrite (proj2 (str_contains_spec "_HUMAN" (s +:+ "_HUMAN")))
    by (exists s, ""; by rewrite str_app_nil_r).
  unfold str_drop_last. rewrite str_length_app. simpl.
  replace (String.length s + 6 - 6)%nat with (String.length s) by lia.
  apply substring_0_app.
Qed.

(** X5.  A name without [_HUMAN] anywhere is returned as it is; a name with
    [_HUMAN] anywhere, at the end or not, loses its last six characters,
    whatever they are. *)
Theorem name_for_esm_cuts_six (name : string) :
  ((∀ a b, name ≠ a +:+ "_HUMAN" +:+ b) → name_for_esm name = name)
  ∧ (∀ a b, name = a +:+ "_HUMAN" +:+ b →
       ∃ tail, String.length tail = 6%nat
               ∧ name = name_for_esm name +:+ tail).
Proof.
  split.
  - intros Hnone. unfold name_for_esm.
    destruct (str_contains "_HUMAN" name) eqn:Hc; [|done].
    apply str_contains_spec in Hc as (a & b & ->). by destruct (Hnone a b).
  - intros a b Hname. unfold name_for_esm, str_drop_last.
    rewrite (proj2 (str_contains_spec "_HUMAN" name)) by eauto.
    assert (Hlen : (6 ≤ String.length name)%nat).
    { rewrite Hname, !str_length_app. simpl. lia. }
    destruct (substring_0_split (String.length name - 6) name)
      as (tail & Hsplit & Htail); [lia|].
    exists tail. split; [lia|done].
Qed.

Lemma comprehension_first_char (l : list string) :
  match comprehension first_char l with
  | Ok chars => length chars = length l ∧ Forall (λ d, d ≠ "") l
  | Raise e => e = IndexError ∧ "" ∈ l
  end.
Proof.
  induction l as [|d l IH]; simpl; [by split|].
  destruct d as [|c d]; simpl.
  - split; [done|left].
  - destruct (comprehension first_char l) as [chars|e].
    + destruct IH as [Hlen Hall]. split; [simpl; by rewrite Hlen|].
      by constructor.
    + destruct IH as [-> Hin]. split; [done|by right].
Qed.

Lemma length_string_of_list_ascii (l : list ascii) :
  String.length (String.string_of_list_ascii l) = length l.
Proof. induction l as [|c l IH]; simpl; [done|by rewrite IH]. Qed.

(** X6.  [sequence_from_esm_df] returns one character for each column after
    the first when none of those labels is empty, and raises [IndexError]
    when one is; a table with no column, or just one, gives the empty
    sequence. *)
Theorem sequence_from_esm_df_length (columns : list string) :
  match sequence_from_esm_df columns with
  | Ok seq =>
      String.length seq = (length columns - 1)%nat
      ∧ Forall (λ d, d ≠ "") (drop 1 columns)
  | Raise e => e = IndexError ∧ "" ∈ drop 1 columns
  end.
Proof.
  unfold sequence_from_esm_df.
  pose proof (comprehension_first_char (drop 1 columns)) as Hc.
  destruct (comprehension first_char (drop 1 columns)) as [chars|e]; [|done].
  destruct Hc as [Hlen Hall]. split; [|done].
  by rewrite length_string_of_list_ascii, Hlen, length_drop.
Qed.

(** ** [ugzip] *)

Lemma gz_read_ok (n : Z) (rest chunk rest' : bytes) :
  n ≠ 0 → gz_read n rest = Ok (chunk, rest') →
  rest = chunk ++ rest' ∧ (chunk = [] → rest = []).
Proof.
  intros Hn0. unfold gz_read.
  destruct (n <? -1) eqn:Hlt; [done|]. destruct (n =? -1) eqn:Heq.
  - intros [= <- <-]. by rewrite app_nil_r.
  - intros [= <- <-]. rewrite take_drop. split; [done|].
    apply Z.ltb_ge in Hlt. apply Z.eqb_neq in Heq.
    destruct (Z.to_nat n) as [|k] eqn:Hk; [lia|]. by destruct rest.
Qed.

Lemma gz_read_raise (n : Z) (rest : bytes) (e : exn) :
  gz_read n rest = Raise e → n < -1 ∧ e = ValueError.
Proof.
  unfold gz_read. destruct (n <? -1) eqn:Hlt.
  - intros [= <-]. apply Z.ltb_lt in Hlt. done.
  - by destruct (n =? -1).
Qed.

(** The loop writes all that is left to read behind what the output holds,
    whatever the size of a read, as long as it is not 0 and not below -1. *)
Lemma ugzip_loop_run (n : Z) (rest : bytes) (f_out : string) (w : world) :
  -1 ≤ n → n ≠ 0 →
  ∀ before, fs w !! f_out = Some before →
  ugzip_loop n rest f_out w =
    (Ok tt, set_fs w (<[f_out := before ++ rest]> (fs w))).
Proof.
  intros Hn Hn0. funelim (ugzip_loop n rest f_out w); intros before Hout.
  - match goal with Hr : gz_read _ _ = Ok ([], _) |- _ =>
      destruct (gz_read_ok _ _ _ _ Hn0 Hr) as [_ Hnil] end.
    rewrite (Hnil eq_refl), app_nil_r, insert_id by done. by destruct w.
  - destruct (gz_read_ok _ _ _ _ Hn0 Hread) as [-> _].
    unfold f_write.
    match goal with IH : context [ugzip_loop _ _ _ _ = _] |- _ =>
      rewrite (IH (Ok tt) _ tt Hn Hn0 (before ++ b :: chunk)) end.
    + unfold set_fs. simpl. by rewrite insert_alter_same, <- app_assoc.
    + simpl. by rewrite lookup_alter_eq, Hout.
  - match goal with Hr : gz_read _ _ = Raise _ |- _ =>
      destruct (gz_read_raise _ _ _ Hr) end. lia.
Qed.

Lemma ugzip_loop_zero (rest : bytes) (f_out : string) (w : world) :
  ugzip_loop 0 rest f_out w = (Ok tt, w).
Proof.
  funelim (ugzip_loop 0 rest f_out w).
  - done.
  - pose proof Hread as Hr. unfold gz_read in Hr. simpl in Hr.
    by rewrite take_0 in Hr.
  - match goal with Hr : gz_read _ _ = Raise _ |- _ =>
      destruct (gz_read_raise _ _ _ Hr) end. lia.
Qed.

Lemma ugzip_loop_below (n : Z) (rest : bytes) (f_out : string) (w : world) :
  n < -1 → ugzip_loop n rest f_out w = (Raise ValueError, w).
Proof.
  intros Hn. funelim (ugzip_loop n rest f_out w).
  - match goal with Hr : gz_read _ _ = Ok _ |- _ =>
      pose proof Hr as Hr' end.
    unfold gz_read in Hr'. by rewrite (proj2 (Z.ltb_lt _ _) Hn) in Hr'.
  - pose proof Hread as Hr. unfold gz_read in Hr.
    by rewrite (proj2 (Z.ltb_lt _ _) Hn) in Hr.
  - match goal with Hr : gz_read _ _ = Raise _ |- _ =>
      destruct (gz_read_raise _ _ _ Hr) as [_ ->] end. done.
Qed.

Section UgzipFacts.
Context `{Gzip}.

(** [ugzip] up to its loop, for a source that exists. *)
Lemma ugzip_opened path outfile chunksize w raw :
  fs w !! path = Some raw →
  ugzip path outfile chunksize w =
    ugzip_loop chunksize
      (if decide (path = outfile) then [] else unzipped raw) outfile
      (mkWorld (<[outfile := []]> (fs w)) (net w)
         (log w ++ [EOpen path Rb; EOpen outfile Wb])).
Proof.
  intros Hraw. unfold ugzip.
  erewrite bind_run
    by (unfold gzip_open, bind, emit; simpl; rewrite Hraw; reflexivity).
  erewrite bind_run by (by apply open_write_run).
  unfold bind, gzip_stream. simpl. rewrite <- app_assoc. simpl.
  destruct (decide (path = outfile)) as [->|Hne].
  - by rewrite lookup_insert_eq.
  - rewrite lookup_insert_ne, Hraw by done. by destruct raw.
Qed.

(** X7.  For a source that exists and an output that is another file, with a
    chunk size of at least 1 (or -1): [ugzip] returns, and the output holds
    exactly the decompressed bytes, whatever it held before and whatever the
    chunk size; no other file changes, the source is as it was. *)
Theorem ugzip_writes_the_content path outfile chunksize w raw :
  fs w !! path = Some raw →
  path ≠ outfile →
  -1 ≤ chunksize → chunksize ≠ 0 →
  ugzip path outfile chunksize w =
    (Ok tt,
     mkWorld (<[outfile := unzipped raw]> (fs w)) (net w)
       (log w ++ [EOpen path Rb; EOpen outfile Wb]))
  ∧ fs (ugzip path outfile chunksize w).2 !! path = Some raw.
Proof.
  intros Hraw Hne Hn Hn0.
  assert (Hrun : ugzip path outfile chunksize w =
    (Ok tt,
     mkWorld (<[outfile := unzipped raw]> (fs w)) (net w)
       (log w ++ [EOpen path Rb; EOpen outfile Wb]))).
  { rewrite (ugzip_opened _ _ _ _ raw Hraw), decide_False by done.
    rewrite (ugzip_loop_run _ _ _ _ Hn Hn0 [])
      by (simpl; apply lookup_insert_eq).
    unfold set_fs. simpl. by rewrite insert_insert_eq. }
  split; [exact Hrun|].
  rewrite Hrun. simpl. by rewrite lookup_insert_ne.
Qed.

(** X8.  With a chunk size of 0 the first read is empty: [ugzip] returns
    without an error, and the output is left empty, created or emptied. *)
Theorem ugzip_zero_chunksize path outfile w raw :
  fs w !! path = Some raw →
  ugzip path outfile 0 w =
    (Ok tt,
     mkWorld (<[outfile := []]> (fs w)) (net w)
       (log w ++ [EOpen path Rb; EOpen outfile Wb])).
Proof.
  intros Hraw.
  by rewrite (ugzip_opened _ _ _ _ raw Hraw), ugzip_loop_zero.
Qed.


(** X10.  When the source does not exist, [gzip.open] raises
    [FileNotFoundError] and the output is neither created nor emptied. *)
Theorem ugzip_missing_source path outfile chunksize w :
  fs w !! path = None →
  ugzip path outfile chunksize w =
    (Raise FileNotFoundError, add_logs w [EOpen path Rb]).
Proof.
  intros Hnone. unfold ugzip.
  by erewrite bind_raise
    by (unfold gzip_open, bind, emit; simpl; rewrite Hnone; reflexivity).
Qed.

(** X11.  A chunk size below -1 is refused by the first read with a
    [ValueError], after the output was opened: the output is left empty. *)
Theorem ugzip_negative_chunksize path outfile chunksize w raw :
  fs w !! path = Some raw →
  chunksize < -1 →
  ugzip path outfile chunksize w =
    (Raise ValueError,
     mkWorld (<[outfile := []]> (fs w)) (net w)
       (log w ++ [EOpen path Rb; EOpen outfile Wb])).
Proof.
  intros Hraw Hn.
  by rewrite (ugzip_opened _ _ _ _ raw Hraw), ugzip_loop_below.
Qed.

End UgzipFacts.

(** ** Downloads from a server that answers *)

Section DownloaderMore.
Context `{Definitions} `{Library}.
Variable self : SafeDownloader.


Lemma transfer_delivers url file hdr mode start total before w data broken :
  delivers self w url hdr data broken →
  ∃ evs,
    transfer self url file hdr mode start total before w =
      (match broken with Some e => Raise e | None => Ok tt end,
       mkWorld (<[file := before ++ data]> (fs w)) (net w) (log w ++ evs)).
Proof.
  intros (r & chunks & Hget & Hiter & <-). unfold transfer.
  rewrite Hget, Hiter. eauto.
Qed.

(** A fetch from scratch, from a server that answers. *)
Lemma download_file_fresh_run position w url name R data broken :
  py_index (urls self) position = Some url →
  py_index (file_names self) position = Some name →
  probed w url R →
  fs w !! file_of self name = None →
  delivers self w url None data broken →
  ∃ evs,
    download_file self position w =
      (match broken with Some e => Raise e | None => Ok tt end,
       mkWorld (<[file_of self name := data]> (fs w)) (net w)
         (log w ++ evs)).
Proof.
  intros Hurl Hname Hprobe Hfile Hget.
  rewrite (download_file_probe self position w url name R) by done.
  rewrite Hfile.
  rewrite (downloader_run self position _ _ url name R) by done.
  simpl.
  match goal with |- context [transfer _ ?u ?f ?h ?m ?st ?t ?b ?w'] =>
    destruct (transfer_delivers u f h m st t b w' data broken Hget)
      as [evs Hrun] end.
  rewrite Hrun. simpl. rewrite <- !app_assoc. eauto.
Qed.

(** A resumed fetch, from a server that answers the range request. *)
Lemma download_file_resume_run position w url name R content data broken :
  py_index (urls self) position = Some url →
  py_index (file_names self) position = Some name →
  probed w url R →
  fs w !! file_of self name = Some content →
  Z.of_nat (length content) ≠ R →
  0 < Z.of_nat (length content) →
  delivers self w url (range_from (Z.of_nat (length content))) data broken →
  ∃ evs,
    download_file self position w =
      (match broken with Some e => Raise e | None => Ok tt end,
       mkWorld (<[file_of self name := content ++ data]> (fs w)) (net w)
         (log w ++ evs)).
Proof.
  intros Hurl Hname Hprobe Hfile Hne Hpos Hget.
  rewrite (download_file_probe self position w url name R) by done.
  rewrite Hfile, (proj2 (Z.eqb_neq R _)) by done. simpl.
  rewrite (downloader_run self position _ _ url name R) by done.
  destruct (resume_header_pos _ Hpos) as (Hh & Hm & Hi).
  rewrite Hh, Hm, Hi. simpl. rewrite Hfile. simpl.
  match goal with |- context [transfer _ ?u ?f ?h ?m ?st ?t ?b ?w'] =>
    destruct (transfer_delivers u f h m st t b w' data broken Hget)
      as [evs Hrun] end.
  rewrite Hrun. simpl. rewrite <- !app_assoc. eauto.
Qed.

(** X12.  Resuming is as good as starting over.  When the destination holds
    a non-empty start of [body] (of a length other than the probed size) and
    the server answers the range request with the rest of [body], then
    [download_file] returns with the destination holding [body]; and when the
    server answers the plain request with [body], these are the very files a
    fetch from scratch leaves, had the destination not been there. *)
Theorem resume_equals_fresh_download position w url name R partial body :
  py_index (urls self) position = Some url →
  py_index (file_names self) position = Some name →
  probed w url R →
  fs w !! file_of self name = Some partial →
  partial `prefix_of` body →
  0 < Z.of_nat (length partial) →
  Z.of_nat (length partial) ≠ R →
  delivers self w url (range_from (Z.of_nat (length partial)))
    (drop (length partial) body) None →
  (download_file self position w).1 = Ok tt
  ∧ fs (download_file self position w).2
    = <[file_of self name := body]> (fs w)
  ∧ (delivers self w url None body None →
     fs (download_file self position
           (set_fs w (delete (file_of self name) (fs w)))).2
     = fs (download_file self position w).2).
Proof.
  intros Hurl Hname Hprobe Hfile [rest ->] Hpos Hne Hrange.
  rewrite drop_app_length in Hrange.
  destruct (download_file_resume_run position w url name R partial rest None)
    as [evs Hrun]; try done.
  rewrite Hrun. simpl. repeat split.
  intros Hfull.
  destruct (download_file_fresh_run position
              (set_fs w (delete (file_of self name) (fs w)))
              url name R (partial ++ rest) None) as [evs' Hrun']; try done.
  { simpl. apply lookup_delete_eq. }
  rewrite Hrun'. simpl. apply insert_delete_eq.
Qed.

(** X13.  After a fetch from scratch that delivered as many bytes as the
    probe advertised, the item is complete: the next [download_file] sends
    its probe and skips. *)
Theorem download_then_skip position w url name body :
  py_index (urls self) position = Some url →
  py_index (file_names self) position = Some name →
  probed w url (Z.of_nat (length body)) →
  fs w !! file_of self name = None →
  delivers self w url None body None →
  let w1 := (download_file self position w).2 in
  (download_file self position w).1 = Ok tt
  ∧ fs w1 !! file_of self name = Some body
  ∧ download_file self position w1 =
      (Ok tt, add_logs w1 (skip_events self position)).
Proof.
  intros Hurl Hname Hprobe Hfile Hget w1. subst w1.
  destruct (download_file_fresh_run position w url name
              (Z.of_nat (length body)) body None) as [evs Hrun]; try done.
  rewrite Hrun. simpl. rewrite lookup_insert_eq. repeat split.
  apply download_file_skip. exists url, name, body.
  repeat split; [done|done|apply lookup_insert_eq|done].
Qed.

(** X14.  A broken transfer heals on the next run.  When the stream of a
    fetch from scratch breaks after a non-empty start of [body] (shorter or
    longer than the probed size, not equal), [download_file] raises the
    exception and leaves that start in the destination; when it is called
    again and the server answers the range request with the rest, it returns
    and the destination holds [body]. *)
Theorem broken_transfer_heals position w url name R start body e :
  py_index (urls self) position = Some url →
  py_index (file_names self) position = Some name →
  probed w url R →
  fs w !! file_of self name = None →
  start `prefix_of` body →
  0 < Z.of_nat (length start) →
  Z.of_nat (length start) ≠ R →
  delivers self w url None start (Some e) →
  delivers self w url (range_from (Z.of_nat (length start)))
    (drop (length start) body) None →
  let w1 := (download_file self position w).2 in
  (download_file self position w).1 = Raise e
  ∧ fs w1 !! file_of self name = Some start
  ∧ (download_file self position w1).1 = Ok tt
  ∧ fs (download_file self position w1).2 !! file_of self name = Some body.
Proof.
  intros Hurl Hname Hprobe Hfile [rest ->] Hpos Hne Hbreak Hrange w1.
  subst w1. rewrite drop_app_length in Hrange.
  destruct (download_file_fresh_run position w url name R start (Some e))
    as [evs Hrun]; try done.
  rewrite Hrun. simpl. rewrite lookup_insert_eq. repeat split.
  - edestruct (download_file_resume_run position
      (mkWorld (<[file_of self name := start]> (fs w)) (net w) (log w ++ evs))
      url name R start rest None) as [evs' Hrun'];
      [done|done|done|apply lookup_insert_eq|done|done|done|].
    by rewrite Hrun'.
  - edestruct (download_file_resume_run position
      (mkWorld (<[file_of self name := start]> (fs w)) (net w) (log w ++ evs))
      url name R start rest None) as [evs' Hrun'];
      [done|done|done|apply lookup_insert_eq|done|done|done|].
    rewrite Hrun'. simpl. apply lookup_insert_eq.
Qed.

End DownloaderMore.

(** ** Edges of the downloader *)

Lemma py_index_elem_of {A} (l : list A) (i : Z) (x : A) :
  py_index l i = Some x → x ∈ l.
Proof.
  unfold py_index. intros Hi. apply list_elem_of_lookup.
  destruct (decide (0 ≤ i)); [eauto|].
  destruct (decide (- Z.of_nat (length l) ≤ i)); [eauto|done].
Qed.

Lemma py_index_negative {A} (l : list A) (k : Z) :
  1 ≤ k ≤ Z.of_nat (length l) →
  py_index l (- k) = py_index l (Z.of_nat (length l) - k).
Proof.
  intros Hk. unfold py_index.
  by rewrite decide_False, decide_True, decide_True by lia.
Qed.

Section DownloaderEdges.
Context `{Definitions} `{Library}.
Variable self : SafeDownloader.


(** [download_file] changes no file, or puts more behind what its
    destination held. *)
Lemma download_file_fs position w :
  fs (download_file self position w).2 = fs w
  ∨ ∃ name extra,
      py_index (file_names self) position = Some name ∧
      fs (download_file self position w).2 =
        <[file_of self name :=
            default [] (fs w !! file_of self name) ++ extra]> (fs w).
Proof.
  destruct (py_index (urls self) position) as [url|] eqn:Hurl.
  2: { left. unfold download_file, bind, getitem. by rewrite Hurl. }
  destruct (net_head (net w) url) as [r|e] eqn:Hhead.
  2: { left. by rewrite (download_file_probe_raises self position w url e). }
  destruct (content_length_of r) as [R|e] eqn:Hlen.
  2: { left. unfold download_file.
       erewrite bind_run by (by apply getitem_run).
       erewrite bind_run by (rewrite requests_head_run, Hhead; reflexivity).
       by erewrite bind_raise
         by (unfold content_length, lift_result; rewrite Hlen; reflexivity). }
  destruct (py_index (file_names self) position) as [name|] eqn:Hname.
  2: { left. unfold download_file.
       erewrite bind_run by (by apply getitem_run).
       erewrite bind_run by (rewrite requests_head_run, Hhead; reflexivity).
       erewrite bind_run
         by (unfold content_length, lift_result; rewrite Hlen; reflexivity).
       by erewrite bind_raise by (unfold getitem; rewrite Hname; reflexivity). }
  assert (Hprobe : probed w url R) by (by exists r).
  rewrite (download_file_probe self position w url name R) by done.
  destruct (fs w !! file_of self name) as [content|] eqn:Hfile; simpl.
  - destruct (negb (R =? Z.of_nat (length content))); [|by left].
    rewrite (downloader_run self position _ _ url name R) by done.
    match goal with |- context [transfer _ ?u ?f ?h ?m ?st ?t ?b ?w'] =>
      destruct (transfer_fs self u f h m st t b w') as [Hsame|[extra Hext]]
    end; [by left|].
    right. exists name, extra. split; [done|].
    rewrite Hext. simpl. rewrite Hfile. f_equal.
    unfold mode_of, truthy.
    destruct (Z.of_nat (length content) =? 0) eqn:Hzero; simpl; [|done].
    apply Z.eqb_eq in Hzero. destruct content; [done|simpl in Hzero; lia].
  - rewrite (downloader_run self position _ _ url name R) by done.
    match goal with |- context [transfer _ ?u ?f ?h ?m ?st ?t ?b ?w'] =>
      destruct (transfer_fs self u f h m st t b w') as [Hsame|[extra Hext]]
    end; [by left|].
    right. exists name, extra. split; [done|]. rewrite Hext. simpl.
    by rewrite Hfile.
Qed.

Lemma download_file_frame position w path :
  (∀ name, py_index (file_names self) position = Some name →
     path ≠ file_of self name) →
  fs (download_file self position w).2 !! path = fs w !! path.
Proof.
  intros Hpath.
  destruct (download_file_fs position w) as [->|(name & extra & Hname & ->)];
    [done|].
  rewrite lookup_insert_ne; [done|]. intros <-. by apply (Hpath name).
Qed.

(** X15.  [download_file] changes no file but the destination of its
    position, and [download] no file but the destinations of the names in
    [file_names], whatever is returned or raised. *)
Theorem download_touches_only_destinations w path :
  (∀ position,
     (∀ name, py_index (file_names self) position = Some name →
        path ≠ file_of self name) →
     fs (download_file self position w).2 !! path = fs w !! path)
  ∧ ((∀ name, name ∈ file_names self → path ≠ file_of self name) →
     fs (download self w).2 !! path = fs w !! path).
Proof.
  split; [intros position; apply download_file_frame|].
  intros Hpath.
  assert (Hpre : PreOrder (λ w1 w2 : world, fs w2 !! path = fs w1 !! path)).
  { split; [done|]. intros w1 w2 w3 H12 H23. congruence. }
  apply (@preserves_for_each _ Hpre). intros position w'.
  apply download_file_frame. intros name Hname.
  apply Hpath. by apply py_index_elem_of in Hname.
Qed.


(** X17.  Download, then validate.  After a fetch from scratch in which the
    server delivered [body], [validate_file] with the SHA-256 of [body] as
    the expected hash reads the destination and signals [Validated]. *)
Theorem download_then_validate position w url name R body hashes :
  py_index (urls self) position = Some url →
  py_index (file_names self) position = Some name →
  probed w url R →
  fs w !! file_of self name = None →
  delivers self w url None body None →
  url_hashes self = Some hashes →
  py_index hashes position = Some (sha256_one_shot body) →
  let w1 := (download_file self position w).2 in
  (download_file self position w).1 = Ok tt
  ∧ validate_file self position w1 =
      (Ok None,
       add_logs w1 (EOpen (file_of self name) Rb ::
                    signal self name Validated)).
Proof.
  intros Hurl Hname Hprobe Hfile Hget Hhashes Hhash w1. subst w1.
  destruct (download_file_fresh_run self position w url name R body None)
    as [evs Hrun]; try done.
  rewrite Hrun. simpl. split; [done|].
  rewrite (validate_file_run self position _ name Hname), Hhashes, Hhash.
  cbn [fs]. rewrite lookup_insert_eq. by rewrite decide_True.
Qed.

(** X18.  Without a list of hashes ([url_hashes=None], the default of the
    constructor) [validate] cannot pass a batch that is not empty: it raises
    at position 0, a [TypeError] from the subscript of [None] (or the
    [IndexError] of a missing file name), before anything is read or
    printed. *)
Theorem validate_without_hashes_raises w :
  url_hashes self = None →
  urls self ≠ [] →
  ∃ e, validate self w = (Raise e, w) ∧ (e = TypeError ∨ e = IndexError).
Proof.
  intros Hhashes Hurls. unfold validate.
  destruct (urls self) as [|u us]; [done|].
  change (py_range (length (u :: us)))
    with (0 :: (Z.of_nat <$> seq 1 (length us))).
  cbn [for_each].
  destruct (py_index (file_names self) 0) as [name|] eqn:Hname.
  - exists TypeError. split; [|by left]. unfold bind at 1. unfold bind at 1.
    by rewrite (validate_file_hashes_None self 0 w name).
  - exists IndexError. split; [|by right]. unfold bind at 1. unfold bind at 1.
    unfold validate_file, bind, getitem. by rewrite Hname.
Qed.

Lemma for_each_validate_returns hashes (l : list Z) : ∀ w,
  url_hashes self = Some hashes →
  (∀ i, i ∈ l →
     ∃ name, py_index (file_names self) i = Some name ∧
       (is_Some (py_index hashes i) → is_Some (fs w !! file_of self name))) →
  ∃ evs, for_each l (λ position, validate_file self position ;;; ret tt) w
         = (Ok tt, add_logs w evs).
Proof.
  intros w Hhashes. revert w.
  induction l as [|i l IH]; intros w Hall.
  - exists []. simpl. by rewrite add_logs_nil.
  - destruct (Hall i) as (name & Hname & Hfile); [left|].
    assert (Hstep : ∃ evs r, validate_file self i w = (Ok r, add_logs w evs)).
    { rewrite (validate_file_run self i w name Hname), Hhashes.
      destruct (py_index hashes i) as [hash|]; [|eauto].
      destruct Hfile as [content Hcontent]; [done|]. rewrite Hcontent. eauto. }
    destruct Hstep as (evs1 & r & Hstep).
    destruct (IH (add_logs w evs1)) as [evs2 Hrest].
    { intros j Hj. apply Hall. by right. }
    exists (evs1 ++ evs2). cbn [for_each].
    unfold bind at 1. unfold bind at 1. rewrite Hstep. unfold ret at 1.
    by rewrite Hrest, add_logs_app.
Qed.

(** X19.  With a list of hashes (of any length), [validate] returns without
    raising, and changes no file, as soon as every position has a file name
    and every position that has a hash has its destination on disk. *)
Theorem validate_returns w hashes :
  url_hashes self = Some hashes →
  (∀ i, 0 ≤ i < Z.of_nat (length (urls self)) →
     ∃ name, py_index (file_names self) i = Some name ∧
       (is_Some (py_index hashes i) → is_Some (fs w !! file_of self name))) →
  (validate self w).1 = Ok tt ∧ fs (validate self w).2 = fs w.
Proof.
  intros Hhashes Hall.
  destruct (for_each_validate_returns hashes
              (py_range (length (urls self))) w Hhashes) as [evs Hrun].
  { intros i Hi. apply Hall. by apply elem_of_py_range. }
  unfold validate. by rewrite Hrun.
Qed.

(** X20.  Positions out of range.  A position outside [urls] makes
    [download_file] raise [IndexError] before any request; a position inside
    [urls] and outside [file_names] (lists of unequal lengths) makes it raise
    [IndexError] after the probe was sent; a position outside [file_names]
    makes [validate_file] raise [IndexError] at once.  No file changes. *)
Theorem positions_out_of_range position w :
  (py_index (urls self) position = None →
     download_file self position w = (Raise IndexError, w))
  ∧ (∀ url R, py_index (urls self) position = Some url →
       probed w url R →
       py_index (file_names self) position = None →
       download_file self position w =
         (Raise IndexError, add_logs w [EHead url]))
  ∧ (py_index (file_names self) position = None →
       validate_file self position w = (Raise IndexError, w)).
Proof.
  repeat split.
  - intros Hurl. unfold download_file, bind, getitem. by rewrite Hurl.
  - intros url R Hurl (r & Hhead & Hlen) Hname. unfold download_file.
    erewrite bind_run by (by apply getitem_run).
    erewrite bind_run by (rewrite requests_head_run, Hhead; reflexivity).
    erewrite bind_run
      by (unfold content_length, lift_result; rewrite Hlen; reflexivity).
    by erewrite bind_raise by (unfold getitem; rewrite Hname; reflexivity).
  - intros Hname. unfold validate_file, bind, getitem. by rewrite Hname.
Qed.

(** X21.  An expected hash that is not 64 characters of lowercase
    hexadecimal (one written in capitals, say) never validates: whatever
    the file holds, [validate_file] signals [HashMismatch]. *)
Theorem malformed_hash_never_validates position w name hashes hash content :
  py_index (file_names self) position = Some name →
  url_hashes self = Some hashes →
  py_index hashes position = Some hash →
  fs w !! file_of self name = Some content →
  length (String.list_ascii_of_string hash) ≠ 64%nat
  ∨ Exists (λ c, is_lower_hex c = false) (String.list_ascii_of_string hash) →
  validate_file self position w =
    (Ok None,
     add_logs w (EOpen (file_of self name) Rb ::
                 signal self name HashMismatch)).
Proof.
  intros Hname Hhashes Hhash Hfile Hbad.
  rewrite (validate_file_run self position w name Hname), Hhashes, Hhash, Hfile.
  rewrite decide_False; [done|]. intros <-.
  destruct (hexdigest_lower_hex (sha_update sha256_new content))
    as [Hlen Hall].
  destruct Hbad as [Hbad|Hbad]; [done|].
  apply Exists_exists in Hbad as (c & Hc & Hfalse).
  rewrite Forall_forall in Hall. specialize (Hall c Hc). congruence.
Qed.

(** X22.  A negative position counts from the end: when [urls] and
    [file_names] have the same length [n], [download_file] at [-k] is
    [download_file] at [n - k], for [k] from 1 to [n]. *)
Theorem negative_position_counts_from_end (k : Z) w :
  length (urls self) = length (file_names self) →
  1 ≤ k ≤ Z.of_nat (length (urls self)) →
  download_file self (- k) w =
  download_file self (Z.of_nat (length (urls self)) - k) w.
Proof.
  intros Hlen Hk.
  pose proof (py_index_negative (urls self) k Hk) as Hu.
  pose proof (py_index_negative (file_names self) k) as Hn.
  rewrite <- Hlen in Hn. specialize (Hn Hk).
  unfold download_file, downloader, getitem. rewrite Hu, Hn. reflexivity.
Qed.

End DownloaderEdges.

(** ** The theorems at work on the sample data *)

Import Sample.

Lemma probed_sample url :
  url = "http://a" ∨ url = "http://e" → probed w0 url 5.
Proof.
  intros Hurl. eexists. split.
  - simpl. rewrite decide_True by done. reflexivity.
  - reflexivity.
Defined.

(** A connection failure gives the sentinel and, at verbosity 2, the warning
    alone; a response is handed back. *)
Lemma safe_get_request_sentinel_witness :
  safe_get_request dead_session "http://x" () 2 "connection failed" None 2 3 w0
    = (Ok None, add_logs w0 [EWarn "connection failed"])
  ∧ safe_get_request live_session "http://a" () 2 "connection failed" None 2 3 w0
    = (Ok (Some "http://a"), w0).
Proof.
  split.
  - apply (proj1 (safe_get_request_sentinel dead_session "http://x" () 2
                    "connection failed" None 2 3 w0 w0) "unreachable").
    reflexivity.
  - apply (proj2 (safe_get_request_sentinel live_session "http://a" () 2
                    "connection failed" None 2 3 w0 w0) (Some "http://a")).
    reflexivity.
Defined.

(** [out/new] does not exist: started message, GET without headers, [wb]. *)
Lemma download_file_fresh_witness :
  let self := dl ["http://a"] ["new"] None in
  fs w0 !! "out/new" = None
  ∧ (download_file self 0 w0).1 = Ok ()
  ∧ fs (download_file self 0 w0).2 !! "out/new" = Some body
  ∧ log (download_file self 0 w0).2 =
      [EHead "http://a"; EPrint "File out/new does not exist. Start download.";
       EHead "http://a"; EGet "http://a" None; EOpen "out/new" Wb;
       EPbar 0 5; EPbar 5 5].
Proof.
  intros self.
  assert (Hfile : fs w0 !! file_of self "new" = None) by reflexivity.
  destruct (download_file_fresh self 0 w0 "http://a" "new" 5
              eq_refl eq_refl (probed_sample _ (or_introl eq_refl)) Hfile)
    as [Hcall Hfetch].
  rewrite Hcall, Hfetch. repeat split; reflexivity.
Defined.

(** [out/part] holds 2 of 5 bytes: resuming message, [Range: bytes=2-],
    [ab], and the file is completed. *)
Lemma download_file_resume_witness :
  let self := dl ["http://a"] ["part"] None in
  fs w0 !! "out/part" = Some (take 2 body)
  ∧ (download_file self 0 w0).1 = Ok ()
  ∧ fs (download_file self 0 w0).2 !! "out/part" = Some body
  ∧ log (download_file self 0 w0).2 =
      [EHead "http://a"; EPrint "File out/part is incomplete. Resume download.";
       EHead "http://a"; EGet "http://a" (Some {[ "Range" := "bytes=2-" ]});
       EOpen "out/part" Ab; EPbar 2 5; EPbar 5 5].
Proof.
  intros self.
  assert (Hfile : fs w0 !! file_of self "part" = Some (take 2 body))
    by reflexivity.
  assert (Hne : Z.of_nat (length (take 2 body)) ≠ 5) by (simpl; lia).
  destruct (download_file_resume self 0 w0 "http://a" "part" 5 (take 2 body)
              eq_refl eq_refl (probed_sample _ (or_introl eq_refl)) Hfile Hne)
    as (Hcall & Hfetch & _).
  rewrite Hcall, Hfetch by (simpl; lia). repeat split; reflexivity.
Defined.

(** [out/empty] exists with 0 bytes and the server has 5: the message says
    resuming, yet the GET request has no [Range] header and the file is
    opened in mode [wb], not [ab]. *)
Lemma download_file_empty_file_counterexample :
  let self := dl ["http://a"] ["empty"] None in
  fs w0 !! file_of self "empty" = Some []
  ∧ probed w0 "http://a" 5
  ∧ log (download_file self 0 w0).2 =
      [EHead "http://a"; EPrint "File out/empty is incomplete. Resume download.";
       EHead "http://a"; EGet "http://a" None; EOpen "out/empty" Wb;
       EPbar 0 5; EPbar 5 5]
  ∧ (EOpen "out/empty" Ab ∉ log (download_file self 0 w0).2)
  ∧ (∀ hdr, EGet "http://a" (Some hdr) ∉ log (download_file self 0 w0).2).
Proof.
  intros self.
  assert (Hlog : log (download_file self 0 w0).2 =
      [EHead "http://a"; EPrint "File out/empty is incomplete. Resume download.";
       EHead "http://a"; EGet "http://a" None; EOpen "out/empty" Wb;
       EPbar 0 5; EPbar 5 5]) by reflexivity.
  split; [reflexivity|]. split; [apply probed_sample; by left|].
  split; [exact Hlog|]. rewrite Hlog. split.
  - intros Hin. repeat (apply elem_of_cons in Hin as [Hin|Hin]; [discriminate|]).
    by apply elem_of_nil in Hin.
  - intros hdr Hin.
    repeat (apply elem_of_cons in Hin as [Hin|Hin]; [discriminate|]).
    by apply elem_of_nil in Hin.
Qed.

Lemma complete_sample url name :
  url = "http://a" ∨ url = "http://e" →
  fs w0 !! ("out/" +:+ name) = Some body →
  ∀ us names position,
    py_index us position = Some url → py_index names position = Some name →
    complete_item (dl us names None) w0 position.
Proof.
  intros Hurl Hfile us names position Hu Hn.
  exists url, name, body. repeat split; [done|done|exact Hfile|].
  by apply probed_sample.
Defined.

(** [out/full] and [out/copy] have the 5 bytes the server advertises: two
    probes, two messages, no request for content, and the same again. *)
Lemma download_skip_idempotent_witness :
  let self := dl ["http://a"; "http://e"] ["full"; "copy"] None in
  let evs := [EHead "http://a"; EPrint "File out/full is complete. Skip download.";
              EHead "http://e"; EPrint "File out/copy is complete. Skip download."] in
  download_file self 1 w0 =
    (Ok (), add_logs w0 [EHead "http://e";
                         EPrint "File out/copy is complete. Skip download."])
  ∧ download self w0 = (Ok (), add_logs w0 evs)
  ∧ download self (add_logs w0 evs) = (Ok (), add_logs (add_logs w0 evs) evs).
Proof.
  intros self evs.
  assert (Hall : ∀ i, 0 ≤ i < Z.of_nat (length (urls self)) →
                   complete_item self w0 i).
  { intros i Hi. simpl in Hi.
    destruct (decide (i = 0)) as [->|Hne].
    - by apply (complete_sample "http://a" "full"); [left|..].
    - assert (i = 1) as -> by lia.
      by apply (complete_sample "http://e" "copy"); [right|..]. }
  destruct (download_skip_idempotent self w0) as [Hitem Hbatch].
  split; [apply (Hitem 1), Hall; simpl; lia|].
  destruct (Hbatch Hall) as (Hfirst & Hsecond & _).
  split; [exact Hfirst|exact Hsecond].
Defined.

(** The first host is unreachable: [download] raises what [requests.head]
    raised, shows no warning, and never probes the second url, which on its
    own would have been fetched. *)
Lemma download_aborts_counterexample :
  let self := dl ["http://x"; "http://a"] ["n1"; "n2"] None in
  download self w0 =
    (Raise (ConnectionError "unreachable"), add_logs w0 [EHead "http://x"])
  ∧ (download_file self 1 w0).1 = Ok ()
  ∧ fs (download self w0).2 !! "out/n2" = None.
Proof. repeat split; reflexivity. Qed.

Lemma download_in_order_until_failure_witness :
  let self := dl ["http://x"; "http://a"] ["n1"; "n2"] None in
  download_upto self 0 w0 = (Ok (), w0)
  ∧ download_file self 0 w0 =
      (Raise (ConnectionError "unreachable"), add_logs w0 [EHead "http://x"])
  ∧ download self w0 =
      (Raise (ConnectionError "unreachable"), add_logs w0 [EHead "http://x"]).
Proof.
  intros self.
  assert (Hk : (0 < length (urls self))%nat) by (simpl; lia).
  assert (Hupto : download_upto self 0 w0 = (Ok (), w0)) by reflexivity.
  split; [exact Hupto|]. split; [reflexivity|].
  exact (download_in_order_until_failure self w0 0 w0 Hk Hupto).
Defined.

(** Position 1 is beyond the one hash given. *)
Lemma validate_file_no_hash_witness :
  let self :=
    dl ["http://a"; "http://e"] ["full"; "copy"] (Some [body_digest]) in
  validate_file self 1 w0 =
    (Ok (Some 0), add_logs w0 [EPrint "File copy has no hash."]).
Proof.
  intros self.
  exact (validate_file_no_hash self 1 w0 "copy" [body_digest]
           eq_refl eq_refl eq_refl).
Defined.

(** [out/full] holds [body]: validated with the digest of [body],
    corrupt with any other, and the file is as before. *)
Lemma validate_file_verdict_witness :
  let good := dl ["http://a"] ["full"] (Some [body_digest]) in
  let bad := dl ["http://a"] ["full"] (Some [other_digest]) in
  validate_file good 0 w0 =
    (Ok None, add_logs w0 [EOpen "out/full" Rb;
                           EPrint "File out/full is validated."])
  ∧ validate_file bad 0 w0 =
    (Ok None, add_logs w0 [EOpen "out/full" Rb; EPrint "File full is corrupt."])
  ∧ fs (validate_file bad 0 w0).2 = fs w0.
Proof.
  intros good bad.
  assert (Hfile : fs w0 !! "out/full" = Some body) by reflexivity.
  split; [|split].
  - exact (proj1 (validate_file_verdict good 0 w0 "full" [body_digest]
                    body_digest body eq_refl eq_refl eq_refl Hfile)).
  - exact (proj1 (validate_file_verdict bad 0 w0 "full" [other_digest]
                    other_digest body eq_refl eq_refl eq_refl Hfile)).
  - exact (proj2 (validate_file_verdict bad 0 w0 "full" [other_digest]
                    other_digest body eq_refl eq_refl eq_refl Hfile)).
Defined.

(** C4, where the code misses it.  A downloader built without hashes has
    [url_hashes = None], the default of [__init__]: the expected hash of
    every item is absent.  There [validate_file] does not reach the no-hash
    message: the subscript of [None] raises [TypeError], the handler is for
    [IndexError] only, and the exception leaves [validate_file] with nothing
    printed.  With an empty list in the place of [None] the same call prints
    the no-hash message and returns 0. *)
Theorem validate_file_default_hashes_raises :
  let self := dl ["http://a"] ["full"] None in
  let listed := dl ["http://a"] ["full"] (Some []) in
  url_hashes self = None
  ∧ validate_file self 0 w0 = (Raise TypeError, w0)
  ∧ validate_file listed 0 w0 =
      (Ok (Some 0), add_logs w0 [EPrint "File full has no hash."]).
Proof. repeat split; reflexivity. Qed.

(** A hash is given for [out/nofile], which was never downloaded:
    [validate_file] raises, and so does [validate]. *)
Lemma validate_file_missing_file_witness :
  let self := dl ["http://a"] ["nofile"] (Some [body_digest]) in
  validate_file self 0 w0 =
    (Raise FileNotFoundError, add_logs w0 [EOpen "out/nofile" Rb])
  ∧ validate self w0 =
    (Raise FileNotFoundError, add_logs w0 [EOpen "out/nofile" Rb]).
Proof.
  intros self.
  pose proof (validate_file_missing_file self 0 w0 "nofile" [body_digest]
                body_digest eq_refl eq_refl eq_refl eq_refl) as Hraise.
  split; [exact Hraise|].
  unfold validate. change (py_range (length (urls self))) with [0].
  cbn [for_each]. unfold bind. by rewrite Hraise.
Defined.

(** [out/full] validated before and after a download that skipped it. *)
Lemma streaming_digest_is_one_shot_witness :
  let self := dl ["http://a"] ["full"] (Some [body_digest]) in
  let w1 := (download self w0).2 in
  ∃ res evs,
    validate_file self 0 w0 = (res, add_logs w0 evs) ∧
    validate_file self 0 w1 = (res, add_logs w1 evs).
Proof.
  intros self w1.
  apply (proj2 (streaming_digest_is_one_shot self) 0 w0 w1).
  intros name [= <-]. reflexivity.
Defined.

(** ** The theorems of the later sections at work *)

Import SampleMore.

Lemma safe_requests_other_exception_witness :
  safe_get_request timeout_session "http://a" () 3 "connection failed" None
    2 3 w0 = (Raise (RequestException "read timed out"), w0)
  ∧ safe_post_request timeout_post "http://a" () 3 "connection failed" None
      2 3 w0 = (Raise (RequestException "read timed out"), w0).
Proof.
  destruct (safe_requests_other_exception "http://a" () 3 "connection failed"
              None 2 3 timeout_session timeout_post w0 w0
              (RequestException "read timed out") eq_refl) as [Hget Hpost].
  split; [apply Hget|apply Hpost]; reflexivity.
Defined.

Lemma safe_post_request_sentinel_witness :
  safe_post_request dead_post "http://x" () 3 "connection failed" None 2 3 w0
    = (Ok None, add_logs w0 [EWarn "connection failed"; EWarn "unreachable"])
  ∧ safe_post_request live_post "http://a" () 3 "connection failed" None 2 3 w0
    = (Ok (Some "http://a"), w0).
Proof.
  split.
  - apply (proj1 (safe_post_request_sentinel "http://x" () 3
                    "connection failed" None 2 3 dead_post w0 w0)
             "unreachable").
    reflexivity.
  - apply (proj2 (safe_post_request_sentinel "http://a" () 3
                    "connection failed" None 2 3 live_post w0 w0)
             (Some "http://a")).
    reflexivity.
Defined.

(** [P53_HUMAN2] has the marker before a digit: six characters go, and what
    is left is [P53_]. *)
Lemma name_for_esm_cuts_six_witness :
  name_for_esm "P53" = "P53"
  ∧ name_for_esm "P53_HUMAN2" = "P53_"
  ∧ ∃ tail, String.length tail = 6%nat
            ∧ "P53_HUMAN2" = name_for_esm "P53_HUMAN2" +:+ tail.
Proof.
  split; [|split; [reflexivity|]].
  - apply (proj1 (name_for_esm_cuts_six "P53")).
    intros a b Hname.
    assert (Hc : str_contains "_HUMAN" "P53" = true)
      by (apply str_contains_spec; eauto).
    discriminate Hc.
  - exact (proj2 (name_for_esm_cuts_six "P53_HUMAN2") "P53" "2" eq_refl).
Defined.

(** The archive [db/a.gz] unpacked over [db/a], two bytes at a time. *)
Lemma ugzip_writes_the_content_witness :
  unzipped archive = body
  ∧ ugzip "db/a.gz" "db/a" 2 w_gz =
    (Ok (),
     mkWorld (<["db/a" := unzipped archive]> (fs w_gz)) (net w_gz)
       (log w_gz ++ [EOpen "db/a.gz" Rb; EOpen "db/a" Wb]))
  ∧ fs (ugzip "db/a.gz" "db/a" 2 w_gz).2 !! "db/a.gz" = Some archive.
Proof.
  split; [reflexivity|].
  refine (ugzip_writes_the_content "db/a.gz" "db/a" 2 w_gz archive
            eq_refl _ _ _); [discriminate|lia|lia].
Defined.

Lemma ugzip_zero_chunksize_witness :
  ugzip "db/a.gz" "db/a" 0 w_gz =
    (Ok (),
     mkWorld (<["db/a" := []]> (fs w_gz)) (net w_gz)
       (log w_gz ++ [EOpen "db/a.gz" Rb; EOpen "db/a" Wb])).
Proof.
  exact (ugzip_zero_chunksize "db/a.gz" "db/a" w_gz archive eq_refl).
Defined.


Lemma ugzip_missing_source_witness :
  ugzip "db/b.gz" "db/a" 2 w_gz =
    (Raise FileNotFoundError, add_logs w_gz [EOpen "db/b.gz" Rb]).
Proof.
  exact (ugzip_missing_source "db/b.gz" "db/a" 2 w_gz eq_refl).
Defined.

Lemma ugzip_negative_chunksize_witness :
  ugzip "db/a.gz" "db/a" (-2) w_gz =
    (Raise ValueError,
     mkWorld (<["db/a" := []]> (fs w_gz)) (net w_gz)
       (log w_gz ++ [EOpen "db/a.gz" Rb; EOpen "db/a" Wb])).
Proof.
  refine (ugzip_negative_chunksize "db/a.gz" "db/a" (-2) w_gz archive
            eq_refl _). lia.
Defined.

Lemma resume_equals_fresh_download_witness :
  let self := dl ["http://a"] ["part"] None in
  (download_file self 0 w0).1 = Ok ()
  ∧ fs (download_file self 0 w0).2 = <["out/part" := body]> (fs w0)
  ∧ fs (download_file self 0 (set_fs w0 (delete "out/part" (fs w0)))).2
    = fs (download_file self 0 w0).2.
Proof.
  intros self.
  assert (Hrange : delivers self w0 "http://a" (range_from 2)
                     (drop 2 body) None).
  { eexists _, _. split; [reflexivity|]. split; reflexivity. }
  assert (Hfull : delivers self w0 "http://a" None body None).
  { eexists _, _. split; [reflexivity|]. split; reflexivity. }
  destruct (resume_equals_fresh_download self 0 w0 "http://a" "part" 5
              (take 2 body) body eq_refl eq_refl
              (probed_sample _ (or_introl eq_refl)) eq_refl)
    as (Hok & Hfs & Hsame);
    [by exists (drop 2 body)|simpl; lia|simpl; lia|exact Hrange|].
  split; [exact Hok|]. split; [exact Hfs|exact (Hsame Hfull)].
Defined.

Lemma download_then_skip_witness :
  let self := dl ["http://a"] ["new"] None in
  let w1 := (download_file self 0 w0).2 in
  fs w1 !! "out/new" = Some body
  ∧ download_file self 0 w1 =
      (Ok (), add_logs w1 [EHead "http://a";
                           EPrint "File out/new is complete. Skip download."]).
Proof.
  intros self w1.
  assert (Hfull : delivers self w0 "http://a" None body None).
  { eexists _, _. split; [reflexivity|]. split; reflexivity. }
  destruct (download_then_skip self 0 w0 "http://a" "new" body
              eq_refl eq_refl (probed_sample _ (or_introl eq_refl))
              eq_refl Hfull) as (_ & Hfile & Hskip).
  split; [exact Hfile|exact Hskip].
Defined.

Lemma broken_transfer_heals_witness :
  let self := dl ["http://f"] ["new"] None in
  let w1 := (download_file self 0 w_flaky).2 in
  (download_file self 0 w_flaky).1 = Raise (RequestException "connection broken")
  ∧ fs w1 !! "out/new" = Some (take 2 body)
  ∧ (download_file self 0 w1).1 = Ok ()
  ∧ fs (download_file self 0 w1).2 !! "out/new" = Some body.
Proof.
  intros self.
  assert (Hprobe : probed w_flaky "http://f" 5).
  { eexists. split; reflexivity. }
  assert (Hbreak : delivers self w_flaky "http://f" None (take 2 body)
                     (Some (RequestException "connection broken"))).
  { eexists _, _. split; [reflexivity|]. split; reflexivity. }
  assert (Hrange : delivers self w_flaky "http://f" (range_from 2)
                     (drop 2 body) None).
  { eexists _, _. split; [reflexivity|]. split; reflexivity. }
  apply (broken_transfer_heals self 0 w_flaky "http://f" "new" 5
           (take 2 body) body (RequestException "connection broken")
           eq_refl eq_refl Hprobe eq_refl);
    [by exists (drop 2 body)|simpl; lia|simpl; lia|exact Hbreak|exact Hrange].
Defined.

Lemma download_touches_only_destinations_witness :
  let self := dl ["http://a"] ["part"] None in
  fs (download_file self 0 w0).2 !! "out/full" = fs w0 !! "out/full"
  ∧ fs (download self w0).2 !! "out/full" = fs w0 !! "out/full".
Proof.
  intros self.
  destruct (download_touches_only_destinations self w0 "out/full")
    as [Hitem Hbatch].
  split.
  - apply Hitem. intros name [= <-]. discriminate.
  - apply Hbatch. intros name Hin.
    apply list_elem_of_singleton in Hin as ->. discriminate.
Defined.


Lemma download_then_validate_witness :
  let self := dl ["http://a"] ["new"] (Some [body_digest]) in
  let w1 := (download_file self 0 w0).2 in
  (download_file self 0 w0).1 = Ok ()
  ∧ validate_file self 0 w1 =
      (Ok None, add_logs w1 [EOpen "out/new" Rb;
                             EPrint "File out/new is validated."]).
Proof.
  intros self.
  assert (Hfull : delivers self w0 "http://a" None body None).
  { eexists _, _. split; [reflexivity|]. split; reflexivity. }
  exact (download_then_validate self 0 w0 "http://a" "new" 5 body
           [body_digest] eq_refl eq_refl
           (probed_sample _ (or_introl eq_refl)) eq_refl Hfull
           eq_refl eq_refl).
Defined.

Lemma validate_without_hashes_raises_witness :
  let self := dl ["http://a"] ["full"] None in
  ∃ e, validate self w0 = (Raise e, w0) ∧ (e = TypeError ∨ e = IndexError).
Proof.
  intros self.
  apply (validate_without_hashes_raises self w0); [reflexivity|discriminate].
Defined.

Lemma validate_returns_witness :
  let self :=
    dl ["http://a"; "http://e"] ["full"; "missing"] (Some [body_digest]) in
  (validate self w0).1 = Ok () ∧ fs (validate self w0).2 = fs w0.
Proof.
  intros self.
  apply (validate_returns self w0 [body_digest]); [reflexivity|].
  intros i Hi. simpl in Hi.
  destruct (decide (i = 0)) as [->|Hne].
  - exists "full". split; [reflexivity|]. intros _. by exists body.
  - assert (i = 1) as -> by lia.
    exists "missing". split; [reflexivity|]. intros [hash Hhash].
    discriminate Hhash.
Defined.

Lemma positions_out_of_range_witness :
  let self := dl ["http://a"; "http://e"] ["full"] None in
  download_file self 2 w0 = (Raise IndexError, w0)
  ∧ download_file self 1 w0 = (Raise IndexError, add_logs w0 [EHead "http://e"])
  ∧ validate_file self 1 w0 = (Raise IndexError, w0).
Proof.
  intros self.
  destruct (positions_out_of_range self 2 w0) as (Hurl & _ & _).
  destruct (positions_out_of_range self 1 w0) as (_ & Hname & Hval).
  split; [exact (Hurl eq_refl)|]. split; [|exact (Hval eq_refl)].
  exact (Hname "http://e" 5 eq_refl (probed_sample _ (or_intror eq_refl))
           eq_refl).
Defined.

(** The right digest, written in capitals. *)
Lemma malformed_hash_never_validates_witness :
  let capitals :=
    "36BBE50ED96841D10443BCB670D6554F0A34B761BE67EC9C4A8AD2C0C44CA42C" in
  let self := dl ["http://a"] ["full"] (Some [capitals]) in
  validate_file self 0 w0 =
    (Ok None, add_logs w0 [EOpen "out/full" Rb; EPrint "File full is corrupt."]).
Proof.
  intros capitals self.
  assert (Hfile : fs w0 !! file_of self "full" = Some body) by reflexivity.
  assert (Hbad :
    length (String.list_ascii_of_string capitals) ≠ 64%nat
    ∨ Exists (λ c, is_lower_hex c = false)
        (String.list_ascii_of_string capitals)).
  { right. do 2 apply Exists_cons_tl. apply Exists_cons_hd. reflexivity. }
  exact (malformed_hash_never_validates self 0 w0 "full" [capitals] capitals
           body eq_refl eq_refl eq_refl Hfile Hbad).
Defined.

Lemma negative_position_counts_from_end_witness :
  let self := dl ["http://a"; "http://e"] ["full"; "copy"] None in
  download_file self (-1) w0 = download_file self 1 w0.
Proof.
  intros self.
  apply (negative_position_counts_from_end self 1 w0); [reflexivity|].
  simpl. lia.
Defined.
